(** * pxs-yt/shortener: the redirect-and-correlate pipeline

    A shallow embedding of [src/server.js] (the Express handlers over the
    two SQLite tables), of [src/public/js/tracking.js] (the collector and
    its boot script) and of the page script of the shortening form, with
    the properties of the pipeline proved about them.

    Numbers are integers ([Z]): timestamps are in whole milliseconds and
    coordinates in whole pixels. *)

From Stdlib Require Import ZArith List Bool Lia.
From Stdlib Require Import Strings.String Strings.Ascii.
From Stdlib Require Strings.Byte.
From stdpp Require Import base option list strings gmap pretty.

Set Warnings "-register-all".
Local Open Scope Z_scope.

(** ** JavaScript values and [JSON.stringify] *)

Module Js.

Inductive jsval : Type :=
| JUndefined
| JNull
| JBool (b : bool)
| JNum (n : Z)
| JStr (s : string)
| JArr (items : list jsval)
| JObj (props : list (string * jsval)).

Definition chr (n : N) : string := String (ascii_of_N n) EmptyString.

Definition dquote : string := chr 34.
Definition backslash : string := chr 92.

Definition hex_digit (n : N) : string :=
  chr (if (n <? 10)%N then 48 + n else 87 + n)%N.

(** One character of a quoted JSON string: the two-character escapes, the
    [\u00XX] form for the other control characters, everything else as is. *)
Definition quote_char (c : ascii) : string :=
  let n := N_of_ascii c in
  if (n =? 34)%N then backslash +:+ dquote
  else if (n =? 92)%N then backslash +:+ backslash
  else if (n =? 8)%N then backslash +:+ "b"
  else if (n =? 9)%N then backslash +:+ "t"
  else if (n =? 10)%N then backslash +:+ "n"
  else if (n =? 12)%N then backslash +:+ "f"
  else if (n =? 13)%N then backslash +:+ "r"
  else if (n <? 32)%N then
    backslash +:+ "u00" +:+ hex_digit (n / 16) +:+ hex_digit (n mod 16)
  else String c EmptyString.

Fixpoint quote_chars (s : string) : string :=
  match s with
  | EmptyString => EmptyString
  | String c rest => quote_char c +:+ quote_chars rest
  end.

Definition quote (s : string) : string := dquote +:+ quote_chars s +:+ dquote.

Definition number_to_string (n : Z) : string := pretty n.

Fixpoint join_comma (parts : list string) : string :=
  match parts with
  | [] => EmptyString
  | [p] => p
  | p :: rest => p +:+ "," +:+ join_comma rest
  end.

(** [JSON.stringify] on a value: [None] is JavaScript's [undefined] result.
    A property whose value is [undefined] is left out of an object; an
    [undefined] array element is printed as [null]. *)
Fixpoint stringify (v : jsval) : option string :=
  match v with
  | JUndefined => None
  | JNull => Some "null"
  | JBool true => Some "true"
  | JBool false => Some "false"
  | JNum n => Some (number_to_string n)
  | JStr s => Some (quote s)
  | JArr items =>
      let elems :=
        (fix go (l : list jsval) : list string :=
           match l with
           | [] => []
           | x :: l' => default "null" (stringify x) :: go l'
           end) items in
      Some ("[" +:+ join_comma elems +:+ "]")
  | JObj props =>
      let members :=
        (fix go (l : list (string * jsval)) : list string :=
           match l with
           | [] => []
           | (k, x) :: l' =>
               match stringify x with
               | Some sx => (quote k +:+ ":" +:+ sx) :: go l'
               | None => go l'
               end
           end) props in
      Some ("{" +:+ join_comma members +:+ "}")
  end.

(** An object literal always serialises to a string. *)
Definition stringify_obj (props : list (string * jsval)) : string :=
  default "{}" (stringify (JObj props)).

End Js.

(** ** The server: [src/server.js] *)

Module Server.
Import Js.

(** *** The two tables

    The [created_at] columns take their default and are read by no handler;
    they are left out. A [NULL] column is [None]. *)

Record link : Type := {
  link_id : Z;
  short_code : string;
  target_url : string
}.

Record fingerprint : Type := {
  fp_link_id : Z;
  hash : option string;
  ip : option string;
  user_agent : option string;
  server_data : option string;
  client_data : option string;
  behavior_data : option string;
  nuclear_data : option string
}.

(** [links] in insertion order; [fingerprints] keyed by its primary key.
    The two [_seq] fields are the AUTOINCREMENT counters. *)
Record db : Type := {
  links : list link;
  links_seq : Z;
  fingerprints : gmap Z fingerprint;
  fingerprints_seq : Z
}.

Definition empty_db : db :=
  {| links := []; links_seq := 0; fingerprints := ∅; fingerprints_seq := 0 |}.

Inductive sql_result (A : Type) : Type :=
| SqlOk (a : A)
| SqlError (msg : string).
Arguments SqlOk {A} a.
Arguments SqlError {A} msg.

(** [SELECT short_code FROM links WHERE target_url = ?] *)
Definition select_by_target (url : string) (t : list link) : option link :=
  find (λ r, bool_decide (target_url r = url)) t.

(** [SELECT ... FROM links WHERE short_code = ?] *)
Definition select_by_code (code : string) (t : list link) : option link :=
  find (λ r, bool_decide (short_code r = code)) t.

(** [INSERT INTO links (short_code, target_url) VALUES (?, ?)]:
    [short_code] is UNIQUE. [io_error] is a failure of the storage layer
    itself. *)
Definition insert_link (io_error : bool) (code url : string) (s : db)
  : sql_result db :=
  if io_error then SqlError "SQLITE_IOERR"
  else if bool_decide (is_Some (select_by_code code (links s))) then
    SqlError "SQLITE_CONSTRAINT: UNIQUE constraint failed: links.short_code"
  else
    let id := links_seq s + 1 in
    SqlOk {| links := links s ++
                      [{| link_id := id; short_code := code; target_url := url |}];
             links_seq := id;
             fingerprints := fingerprints s;
             fingerprints_seq := fingerprints_seq s |}.

(** [INSERT INTO fingerprints (link_id, ip, user_agent, server_data)
    VALUES (?, ?, ?, ?)]: the other columns stay [NULL]; the result carries
    [this.lastID]. *)
Definition insert_fingerprint (io_error : bool) (lid : Z)
    (ip_ ua sd : option string) (s : db) : sql_result (Z * db) :=
  if io_error then SqlError "SQLITE_IOERR"
  else
    let id := fingerprints_seq s + 1 in
    let row := {| fp_link_id := lid; hash := None; ip := ip_;
                  user_agent := ua; server_data := sd; client_data := None;
                  behavior_data := None; nuclear_data := None |} in
    SqlOk (id, {| links := links s; links_seq := links_seq s;
                  fingerprints := <[id := row]> (fingerprints s);
                  fingerprints_seq := id |}).

(** Some row other than [id] already carries the hash [h]. *)
Definition hash_taken (id : Z) (h : string) (t : gmap Z fingerprint) : bool :=
  bool_decide (map_Exists (λ k r, k ≠ id ∧ hash r = Some h) t).

(** [UPDATE fingerprints SET client_data = ?, behavior_data = ?,
    nuclear_data = ?, hash = ? WHERE id = ?]. An [undefined] parameter binds
    as [NULL]; with no matching row the statement succeeds and changes
    nothing; [hash] is UNIQUE. *)
Definition update_fingerprint (io_error : bool)
    (cd bd nd : option string) (h : string) (id : option Z) (s : db)
  : sql_result db :=
  if io_error then SqlError "SQLITE_IOERR"
  else
    match id with
    | None => SqlOk s
    | Some i =>
        match fingerprints s !! i with
        | None => SqlOk s
        | Some r =>
            if hash_taken i h (fingerprints s) then
              SqlError
                "SQLITE_CONSTRAINT: UNIQUE constraint failed: fingerprints.hash"
            else
              let r' := {| fp_link_id := fp_link_id r; hash := Some h;
                           ip := ip r; user_agent := user_agent r;
                           server_data := server_data r; client_data := cd;
                           behavior_data := bd; nuclear_data := nd |} in
              SqlOk {| links := links s; links_seq := links_seq s;
                       fingerprints := <[i := r']> (fingerprints s);
                       fingerprints_seq := fingerprints_seq s |}
        end
    end.

(** *** Responses *)

(** The HTML shell of [GET /:code]: the two page-scoped values of its script
    and the URL of its no-script meta refresh. *)
Record page : Type := {
  page_TRACKING_ID : Z;
  page_TARGET_URL : string;     (* [JSON.stringify(link.target_url)] *)
  page_noscript_url : string
}.

Inductive response : Type :=
| Send (status : Z) (text : string)
| SendJson (status : Z) (body : jsval)
| Redirect (location : string)
| SendPage (p : page).

Definition status_of (r : response) : Z :=
  match r with
  | Send st _ | SendJson st _ => st
  | Redirect _ => 302
  | SendPage _ => 200
  end.

(** *** [POST /api/create] *)

(** The request body, with its two fields as strings, as the form script
    sends them; [None] is an absent (or null) field. A body whose url or
    customCode is another JSON value (a number, a boolean, an array, an
    object) is outside this model: [Requests.create_body_of] reads a parsed
    body and is undefined there. *)
Record create_body : Type := {
  url : option string;
  customCode : option string
}.

(** A string option read as a condition: absent and empty are false. *)
Definition nonempty (o : option string) : option string :=
  match o with
  | Some s => if bool_decide (s = EmptyString) then None else Some s
  | None => None
  end.

Definition code_char (c : ascii) : bool :=
  let n := N_of_ascii c in
  ((48 <=? n) && (n <=? 57) || (65 <=? n) && (n <=? 90)
   || (97 <=? n) && (n <=? 122) || (n =? 95) || (n =? 45))%N.

Fixpoint all_chars (p : ascii → bool) (s : string) : bool :=
  match s with
  | EmptyString => true
  | String c rest => p c && all_chars p rest
  end.

(** [/^[a-z0-9_-]{3,20}$/i.test(customCode)] *)
Definition code_format_ok (s : string) : bool :=
  (3 <=? String.length s)%nat && (String.length s <=? 20)%nat
  && all_chars code_char s.

(** What the storage layer does wrong during one request, one flag per
    statement the handler issues. *)
Record create_faults : Type := {
  select_url_error : bool;
  select_code_error : bool;
  insert_link_error : bool
}.

Definition no_create_faults : create_faults :=
  {| select_url_error := false; select_code_error := false;
     insert_link_error := false |}.

Definition error_body (msg : string) : jsval := JObj [("error", JStr msg)].

(** [generated] is what [generateCode()] returns if it is called: the hex
    form of four random bytes. *)
Definition post_api_create (flt : create_faults) (generated : string)
    (body : create_body) (s : db) : response * db :=
  match nonempty (url body) with
  | None => (SendJson 400 (error_body "URL is required"), s)
  | Some u =>
      let existing :=
        if select_url_error flt then None else select_by_target u (links s) in
      match existing with
      | Some row =>
          (SendJson 200 (JObj [("code", JStr (short_code row));
                               ("existing", JBool true)]), s)
      | None =>
          let code := default generated (nonempty (customCode body)) in
          let insert :=
            match insert_link (insert_link_error flt) code u s with
            | SqlError _ =>
                (SendJson 500 (error_body "Internal server error"), s)
            | SqlOk s' => (SendJson 200 (JObj [("code", JStr code)]), s')
            end in
          match nonempty (customCode body) with
          | Some cc =>
              let exists_ :=
                if select_code_error flt then false
                else bool_decide (is_Some (select_by_code cc (links s))) in
              if exists_ then
                (SendJson 400 (error_body "Custom code already in use"), s)
              else if negb (code_format_ok cc) then
                (SendJson 400 (error_body "Invalid custom code format"), s)
              else insert
          | None => insert
          end
      end
  end.

(** *** [GET /:code] *)

Record request : Type := {
  req_ip : option string;
  req_headers : list (string * string);
  req_hostname : string;
  req_socket_ttl : option Z
}.

Definition header (name : string) (req : request) : option string :=
  snd <$> find (λ kv, bool_decide (fst kv = name)) (req_headers req).

Definition of_option {A} (f : A → jsval) (o : option A) : jsval :=
  match o with Some a => f a | None => JUndefined end.

(** [timing] is [Date.now() - startTime] at the time the link row arrives. *)
Definition serverData (timing : Z) (req : request) : jsval :=
  JObj [("ip", of_option JStr (req_ip req));
        ("headers", JObj (map (λ kv, (fst kv, JStr (snd kv))) (req_headers req)));
        ("dns", JStr (req_hostname req));
        ("tcp", JObj [("ttl", of_option JNum (req_socket_ttl req));
                      ("timing", JNum timing)]);
        ("geo", match nonempty (header "cf-ipcountry" req) with
                | Some c => JStr c
                | None => JNull
                end)].

Record visit_faults : Type := {
  select_link_error : bool;
  insert_fingerprint_error : bool
}.

Definition no_visit_faults : visit_faults :=
  {| select_link_error := false; insert_fingerprint_error := false |}.

Definition get_code (flt : visit_faults) (timing : Z) (req : request)
    (code : string) (s : db) : response * db :=
  let found :=
    if select_link_error flt then None else select_by_code code (links s) in
  match found with
  | None => (Send 404 "Link not found", s)
  | Some lnk =>
      match insert_fingerprint (insert_fingerprint_error flt) (link_id lnk)
              (req_ip req) (header "user-agent" req)
              (stringify (serverData timing req)) s with
      | SqlError _ => (Redirect (target_url lnk), s)
      | SqlOk (lastID, s') =>
          (SendPage {| page_TRACKING_ID := lastID;
                       page_TARGET_URL := quote (target_url lnk);
                       page_noscript_url := target_url lnk |}, s')
      end
  end.

(** *** [POST /api/track] *)

Section Track.

(** The hex SHA-256 digest of Node's [crypto] module. *)
Variable sha256_hex : string → string.

(** The fields the handler reads from the request body (it ignores
    [nuclearData]). [id] is the row key the bound parameter compares equal
    to, [None] when it can equal none (absent or null); an absent
    [clientData] or [behavior] is [JUndefined]. *)
Record track_body : Type := {
  id : option Z;
  clientData : jsval;
  behavior : jsval
}.

(** The object literal [{ clientData, behavior }]. *)
Definition combined (body : track_body) : jsval :=
  JObj [("clientData", clientData body); ("behavior", behavior body)].

Definition composite_hash (body : track_body) : string :=
  sha256_hex (stringify_obj [("clientData", clientData body);
                             ("behavior", behavior body)]).

Definition post_api_track (update_error : bool) (body : track_body) (s : db)
  : response * db :=
  let h := composite_hash body in
  match update_fingerprint update_error
          (stringify (clientData body)) (stringify (behavior body))
          (stringify (combined body)) h (id body) s with
  | SqlError _ => (Send 500 EmptyString, s)
  | SqlOk s' => (Send 200 "OK", s')
  end.

(** The record a tracking identifier refers to, if any. *)
Definition record_of (i : option Z) (s : db) : option fingerprint :=
  i ≫= (fingerprints s !!.).

(** *** The store over time: any sequence of requests from the empty
    database *)

Inductive step : db → db → Prop :=
| step_create flt generated body s :
    step s (post_api_create flt generated body s).2
| step_visit flt timing req code s :
    step s (get_code flt timing req code s).2
| step_track update_error body s :
    step s (post_api_track update_error body s).2.

Inductive reachable : db → Prop :=
| reachable_init : reachable empty_db
| reachable_step s s' : reachable s → step s s' → reachable s'.

End Track.

(** The invariant of one row of the fingerprints table. *)
Definition hash_iff_payload (r : fingerprint) : Prop :=
  is_Some (hash r) ↔ is_Some (nuclear_data r).

(** *** Concrete requests

    The handlers are stated for any digest function; the runs on concrete
    requests use a stand-in that tags the serialised text. *)

Definition sample_digest (text : string) : string := "sha256:" +:+ text.

Definition sample_request : request :=
  {| req_ip := Some "203.0.113.9";
     req_headers := [("user-agent", "Mozilla/5.0"); ("cf-ipcountry", "DE")];
     req_hostname := "sho.rt";
     req_socket_ttl := None |}.

Definition linked_db : db :=
  (post_api_create no_create_faults "9f3a1c2e"
     {| url := Some "https://example.com"; customCode := Some "abc123" |}
     empty_db).2.

Definition visited_db : db :=
  (get_code no_visit_faults 2 sample_request "abc123" linked_db).2.

Definition sample_track : track_body :=
  {| id := Some 1;
     clientData := JObj [("basic", JObj [("platform", JStr "Linux")])];
     behavior := JObj [] |}.

Definition stray_track : track_body :=
  {| id := Some 42; clientData := JObj []; behavior := JObj [] |}.

Definition correlated_db : db :=
  (post_api_track sample_digest false sample_track visited_db).2.

(** The storage layer refuses the INSERT of the correlation record. *)
Definition failing_insert : visit_faults :=
  {| select_link_error := false; insert_fingerprint_error := true |}.

(** *** Code generation, the table constraints, and more requests *)

(** Two lowercase hex digits for one byte, as [Buffer.toString('hex')]
    prints it. *)
Definition hex_of_byte (b : Byte.byte) : string :=
  hex_digit (Byte.to_N b / 16) +:+ hex_digit (Byte.to_N b mod 16).

(** [buf.toString('hex')] *)
Definition toString_hex (buf : list Byte.byte) : string :=
  foldr (λ b rest, hex_of_byte b +:+ rest) EmptyString buf.

(** [generateCode]: [random] is what [crypto.randomBytes(4)] returned. *)
Definition generateCode (random : list Byte.byte) : string := toString_hex random.

(** One of [0-9a-f]. *)
Definition lower_hex_char (c : ascii) : bool :=
  let n := N_of_ascii c in
  ((48 <=? n) && (n <=? 57) || (97 <=? n) && (n <=? 102))%N.

(** The links table keeps its keys: codes are distinct, ids are 1, 2, ...
    in insertion order, and the counter is the number of rows. *)
Definition links_wf (s : db) : Prop :=
  NoDup (short_code <$> links s)
  ∧ link_id <$> links s = Z.of_nat <$> seq 1 (length (links s))
  ∧ links_seq s = Z.of_nat (length (links s)).

(** The fingerprints table keeps its keys and constraints: ids are exactly
    1 .. counter, every row refers to a stored link, and no two rows share
    a hash. *)
Definition fingerprints_wf (s : db) : Prop :=
  0 ≤ fingerprints_seq s
  ∧ (∀ k, is_Some (fingerprints s !! k) ↔ 1 ≤ k ≤ fingerprints_seq s)
  ∧ (∀ k r, fingerprints s !! k = Some r →
       ∃ l, l ∈ links s ∧ link_id l = fp_link_id r)
  ∧ (∀ i j ri rj h,
       fingerprints s !! i = Some ri → fingerprints s !! j = Some rj →
       hash ri = Some h → hash rj = Some h → i = j).

(** The row a correlate call writes over [r]. *)
Definition correlated (sha256_hex : string → string) (body : track_body)
    (r : fingerprint) : fingerprint :=
  {| fp_link_id := fp_link_id r;
     hash := Some (composite_hash sha256_hex body);
     ip := ip r; user_agent := user_agent r; server_data := server_data r;
     client_data := stringify (clientData body);
     behavior_data := stringify (behavior body);
     nuclear_data := stringify (combined body) |}.

(* ---- DEFS (go to Server) ---- *)
(** What every stored record carries: the server's own snapshot, and client
    columns only together with a hash. *)
Definition record_complete (r : fingerprint) : Prop :=
  is_Some (server_data r)
  ∧ (is_Some (client_data r) ∨ is_Some (behavior_data r) → is_Some (hash r)).

(** A second link, created without a custom code from four random bytes. *)
Definition generated_db : db :=
  (post_api_create no_create_faults (generateCode [Byte.x9f; Byte.x3a; Byte.x1c; Byte.x2e])
     {| url := Some "https://example.org/long/path";
        customCode := Some EmptyString |} correlated_db).2.

(** The payload of [sample_track], delivered for the second visit. *)
Definition second_track : track_body :=
  {| id := Some 2;
     clientData := clientData sample_track;
     behavior := behavior sample_track |}.

(** A later state: any further sequence of requests. *)
Inductive later (sha256_hex : string → string) : db → db → Prop :=
| later_refl s : later sha256_hex s s
| later_step s s1 s2 :
    later sha256_hex s s1 → step sha256_hex s1 s2 → later sha256_hex s s2.

(** A later state reached without a correlate call that names record [i]. *)
Inductive later_leaving (sha256_hex : string → string) (i : Z)
  : db → db → Prop :=
| leaving_refl s : later_leaving sha256_hex i s s
| leaving_create s s1 flt generated body :
    later_leaving sha256_hex i s s1 →
    later_leaving sha256_hex i s (post_api_create flt generated body s1).2
| leaving_visit s s1 flt timing req code :
    later_leaving sha256_hex i s s1 →
    later_leaving sha256_hex i s (get_code flt timing req code s1).2
| leaving_track s s1 update_error body :
    later_leaving sha256_hex i s s1 → id body ≠ Some i →
    later_leaving sha256_hex i s
      (post_api_track sha256_hex update_error body s1).2.

(** The correlated first visit, followed by a second visit to the link. *)
Definition revisited_db : db :=
  (get_code no_visit_faults 3 sample_request "abc123" correlated_db).2.

End Server.

(** ** The collector: [src/public/js/tracking.js] *)

Module Tracking.
Import Js.

(** What calling or awaiting a piece of browser-facing code does: it
    returns, throws, or never settles. *)
Inductive outcome (A : Type) : Type :=
| Ret (a : A)
| Throw (e : jsval)
| Hang.
Arguments Ret {A} a.
Arguments Throw {A} e.
Arguments Hang {A}.

(** Sequencing, as [await] and plain calls do it: [x ← o; k] in stdpp's
    monad notation. *)
#[export] Instance outcome_ret : MRet outcome := λ A a, Ret a.
#[export] Instance outcome_bind : MBind outcome := λ A B k o,
  match o with
  | Ret a => k a
  | Throw e => Throw e
  | Hang => Hang
  end.

(** [try { body } catch (e) { return null; }] *)
Definition or_null (body : outcome jsval) : outcome jsval :=
  match body with
  | Throw _ => Ret JNull
  | other => other
  end.

(** *** The behavioural listeners *)

Inductive kind : Type := mousemove | scroll | keydown | touchstart.

Inductive event : Type :=
| MouseMove (clientX clientY : Z)
| ScrollTo (scrollY : Z)
| KeyDown (key code : string)
| TouchStart (clientX clientY : Z).

(** One handler and the array it pushes to. *)
Record listener : Type := {
  listening : bool;
  samples : list jsval
}.

(** The page state the four capture functions leave behind. Times are
    [Date.now()] values; [performance.now()] is the same clock counted from
    [timeOrigin]. [touch] is [None] when the function returned [null]
    without registering anything. [timers] are the pending [setTimeout]
    callbacks with their due times. *)
Record page_state : Type := {
  timeOrigin : Z;
  startTime : Z;
  mouse : listener;
  scroll_ : listener;
  keyboard : listener;
  touch : option listener;
  timers : list (Z * kind)
}.

Definition armed : listener := {| listening := true; samples := [] |}.

Definition getBehaviorData (origin now : Z) (ontouchstart_in_window : bool)
  : page_state :=
  {| timeOrigin := origin;
     startTime := now;
     mouse := armed;
     scroll_ := armed;
     keyboard := armed;
     touch := if ontouchstart_in_window then Some armed else None;
     timers := [(now + 1000, scroll); (now + 1000, keydown)]
               ++ (if ontouchstart_in_window then [(now + 1000, touchstart)]
                   else []) |}.

Definition retire (l : listener) : listener :=
  {| listening := false; samples := samples l |}.

(** [removeEventListener] for the handler of one kind. *)
Definition removeEventListener (k : kind) (st : page_state) : page_state :=
  {| timeOrigin := timeOrigin st;
     startTime := startTime st;
     mouse := if k is mousemove then retire (mouse st) else mouse st;
     scroll_ := if k is scroll then retire (scroll_ st) else scroll_ st;
     keyboard := if k is keydown then retire (keyboard st) else keyboard st;
     touch := if k is touchstart then retire <$> touch st else touch st;
     timers := timers st |}.

(** The timer callbacks that are due at [now] run, in the order they were
    set, before the next input event is delivered. *)
Definition run_timers (now : Z) (st : page_state) : page_state :=
  let st' :=
    foldl (λ s (t : Z * kind), removeEventListener t.2 s) st
          (filter (λ t : Z * kind, (t.1 ≤ now)%Z) (timers st)) in
  {| timeOrigin := timeOrigin st'; startTime := startTime st';
     mouse := mouse st'; scroll_ := scroll_ st'; keyboard := keyboard st';
     touch := touch st';
     timers := filter (λ t : Z * kind, ¬ (t.1 ≤ now)%Z) (timers st) |}.

Definition push (v : jsval) (l : listener) : listener :=
  {| listening := listening l; samples := samples l ++ [v] |}.

(** The [mousemove] handler: push, then deregister at fifty samples. *)
Definition mouse_handler (now x y : Z) (st : page_state) : page_state :=
  let m := push (JObj [("x", JNum x); ("y", JNum y);
                       ("t", JNum (now - startTime st))]) (mouse st) in
  {| timeOrigin := timeOrigin st; startTime := startTime st;
     mouse := if bool_decide (50 ≤ length (samples m))%nat then retire m
              else m;
     scroll_ := scroll_ st; keyboard := keyboard st; touch := touch st;
     timers := timers st |}.

Definition scroll_handler (now y : Z) (st : page_state) : page_state :=
  {| timeOrigin := timeOrigin st; startTime := startTime st;
     mouse := mouse st;
     scroll_ := push (JObj [("y", JNum y); ("t", JNum now)]) (scroll_ st);
     keyboard := keyboard st; touch := touch st; timers := timers st |}.

Definition keydown_handler (now : Z) (key code : string) (st : page_state)
  : page_state :=
  {| timeOrigin := timeOrigin st; startTime := startTime st;
     mouse := mouse st; scroll_ := scroll_ st;
     keyboard := push (JObj [("key", JStr key); ("code", JStr code);
                             ("t", JNum (now - timeOrigin st))]) (keyboard st);
     touch := touch st; timers := timers st |}.

Definition touch_handler (now x y : Z) (st : page_state) : page_state :=
  {| timeOrigin := timeOrigin st; startTime := startTime st;
     mouse := mouse st; scroll_ := scroll_ st; keyboard := keyboard st;
     touch := push (JObj [("x", JNum x); ("y", JNum y);
                          ("t", JNum (now - timeOrigin st))]) <$> touch st;
     timers := timers st |}.

Definition touch_listening (st : page_state) : bool :=
  match touch st with Some l => listening l | None => false end.

(** One turn of the event loop: an input event arriving at [now]. *)
Definition dispatch (st : page_state) (te : Z * event) : page_state :=
  let now := te.1 in
  let st := run_timers now st in
  match te.2 with
  | MouseMove x y =>
      if listening (mouse st) then mouse_handler now x y st else st
  | ScrollTo y =>
      if listening (scroll_ st) then scroll_handler now y st else st
  | KeyDown key code =>
      if listening (keyboard st) then keydown_handler now key code st else st
  | TouchStart x y =>
      if touch_listening st then touch_handler now x y st else st
  end.

Definition run_events (st : page_state) (timeline : list (Z * event))
  : page_state :=
  foldl dispatch st timeline.

(** The object [getBehaviorData] returned, as it reads at some later time:
    the arrays are shared with the handlers. *)
Definition behavior_value (st : page_state) : jsval :=
  JObj [("mouse", JArr (samples (mouse st)));
        ("scroll", JArr (samples (scroll_ st)));
        ("keyboard", JArr (samples (keyboard st)));
        ("touch", match touch st with
                  | Some l => JArr (samples l)
                  | None => JNull
                  end)].

(** *** The browser, as the probes meet it

    Each [_reads] field is what the body of one probe does when it runs
    against this browser, before any [try]/[catch] of the probe itself: the
    value it builds, the exception it meets, or (for awaited reads) a
    promise that never settles. *)
Record browser : Type := {
  TRACKING_ID : Z;
  TARGET_URL : string;
  time_origin : Z;
  perf_at_start : Z;          (* [performance.now()] before collection *)
  perf_at_resolved : Z;       (* [performance.now()] once it resolved *)
  date_at_behavior : Z;       (* [Date.now()] when the listeners are set *)
  iso_timestamp : string;     (* [new Date().toISOString()] *)
  basic_reads : outcome jsval;
  gpu_reads : outcome jsval;
  hardwareConcurrency : jsval;
  wasm_check : outcome bool;
  little_endian : bool;
  has_getBattery : bool;
  battery_reads : outcome jsval;
  has_storage_estimate : bool;
  storage_reads : outcome jsval;
  has_enumerateDevices : bool;
  devices_reads : outcome jsval;
  has_Accelerometer : bool;
  accelerometer_reading : outcome jsval;
  has_Gyroscope : bool;
  gyroscope_reading : outcome jsval;
  canvas_reads : outcome jsval;
  webgl_reads : outcome jsval;
  webgl2_reads : outcome jsval;
  video_reads : outcome jsval;
  fonts_reads : outcome jsval;
  css_reads : outcome jsval;
  ontouchstart_in_window : bool;
  fetch_result : outcome jsval
}.

Section Probes.
Variable b : browser.

(** 1. Basic system data: no guard of its own. *)
Definition getBasicData : outcome jsval := basic_reads b.

(** 2. Hardware capabilities. *)
Definition getGPUInfo : outcome jsval := or_null (gpu_reads b).

Definition detectCPUArchitecture : outcome jsval :=
  match wasm_check b with
  | Ret true => Ret (JStr "WASM supported")
  | Ret false => Ret (JStr "No WASM")
  | Throw _ => Ret (JStr "Unknown")
  | Hang => Hang
  end.

Definition detectEndianness : jsval :=
  JStr (if little_endian b then "LE" else "BE").

Definition getBatteryInfo : outcome jsval :=
  if has_getBattery b then or_null (battery_reads b) else Ret JNull.

Definition getStorageInfo : outcome jsval :=
  if has_storage_estimate b then or_null (storage_reads b) else Ret JNull.

Definition getMediaDevices : outcome jsval :=
  if has_enumerateDevices b then or_null (devices_reads b) else Ret JNull.

(** One sensor block of [getSensorData]: the property it adds to [results],
    if any. The awaited promise resolves on the first [reading] event only. *)
Definition sensor_block (name : string) (present : bool)
    (reading : outcome jsval) : outcome (list (string * jsval)) :=
  if present then
    match reading with
    | Ret v => Ret [(name, v)]
    | Throw _ => Ret []
    | Hang => Hang
    end
  else Ret [].

Definition getSensorData : outcome jsval :=
  acc ← sensor_block "accelerometer" (has_Accelerometer b)
         (accelerometer_reading b);
  gyr ← sensor_block "gyroscope" (has_Gyroscope b) (gyroscope_reading b);
  let results : list (string * jsval) := (acc ++ gyr)%list in
  mret (match results with
        | nil => JNull
        | _ => JObj results
        end).

Definition getHardwareData : outcome jsval :=
  gpu ← getGPUInfo;
  architecture ← detectCPUArchitecture;
  battery ← getBatteryInfo;
  storage ← getStorageInfo;
  mediaDevices ← getMediaDevices;
  sensors ← getSensorData;
  mret (JObj [("gpu", gpu);
              ("cpu", JObj [("cores", hardwareConcurrency b);
                            ("architecture", architecture);
                            ("endianness", detectEndianness)]);
              ("battery", battery);
              ("storage", storage);
              ("mediaDevices", mediaDevices);
              ("sensors", sensors)]).

(** 3. Graphics fingerprinting: the font list and the CSS features have no
    guard. *)
Definition getCanvasFingerprint : outcome jsval := or_null (canvas_reads b).
Definition getWebGLFingerprint : outcome jsval := or_null (webgl_reads b).
Definition getWebGL2Info : outcome jsval := or_null (webgl2_reads b).
Definition getVideoCapabilities : outcome jsval := or_null (video_reads b).
Definition getFontList : outcome jsval := fonts_reads b.
Definition getCSSFeatures : outcome jsval := css_reads b.

Definition getGraphicsData : outcome jsval :=
  canvas ← getCanvasFingerprint;
  webgl ← getWebGLFingerprint;
  webgl2 ← getWebGL2Info;
  video ← getVideoCapabilities;
  fonts ← getFontList;
  css ← getCSSFeatures;
  mret (JObj [("canvas", canvas); ("webgl", webgl); ("webgl2", webgl2);
              ("video", video); ("fonts", fonts); ("css", css)]).

(** The listeners as [collectAllData] leaves them. *)
Definition listeners_set : page_state :=
  getBehaviorData (time_origin b) (date_at_behavior b)
    (ontouchstart_in_window b).

(** Main collection function. The promise it returns resolves in the same
    turn of the event loop the listeners were set in, so the arrays of
    [behavior] are read before any input event is delivered. *)
Definition collectAllData : outcome jsval :=
  basic ← getBasicData;
  hardware ← getHardwareData;
  graphics ← getGraphicsData;
  let behavior := behavior_value listeners_set in
  mret (JObj [("basic", basic); ("hardware", hardware);
              ("graphics", graphics); ("behavior", behavior);
              ("timestamp", JStr (iso_timestamp b))]).

End Probes.

(** *** The boot script *)

(** What the script does to the world, in order. *)
Inductive effect : Type :=
| FetchPost (url body : string)
| ConsoleError (label : string) (error : jsval)
| Navigate (url : string).

Record run (A : Type) : Type := Run {
  trace : list effect;
  result : outcome A
}.
Arguments Run {A} trace result.
Arguments trace {A} r.
Arguments result {A} r.

#[export] Instance run_ret : MRet run := λ A a, Run [] (Ret a).
#[export] Instance run_bind : MBind run := λ A B k m,
  match result m with
  | Ret a => Run (trace m ++ trace (k a)) (result (k a))
  | Throw e => Run (trace m) (Throw e)
  | Hang => Run (trace m) Hang
  end.

Definition await {A} (o : outcome A) : run A := Run [] o.
Definition emit (e : effect) : run unit := Run [e] (Ret tt).

(** [try { body } catch (error) { handler }] *)
Definition try_catch {A} (body : run A) (handler : jsval → run A) : run A :=
  match result body with
  | Throw e => Run (trace body ++ trace (handler e)) (result (handler e))
  | _ => body
  end.

(** [try { body } finally { cleanup }]: the cleanup runs once the body has
    returned or thrown; a body still waiting has not reached it. *)
Definition try_finally {A} (body : run A) (cleanup : run unit) : run A :=
  match result body with
  | Hang => body
  | settled =>
      Run (trace body ++ trace cleanup)
          (match result cleanup with
           | Ret _ => settled
           | Throw e => Throw e
           | Hang => Hang
           end)
  end.

(** [obj.key] *)
Definition get_prop (key : string) (obj : jsval) : jsval :=
  match obj with
  | JObj props =>
      match find (λ kv : string * jsval, bool_decide (kv.1 = key)) props with
      | Some kv => kv.2
      | None => JUndefined
      end
  | _ => JUndefined
  end.

(** [obj.key = v] on a plain object. *)
Definition set_prop (key : string) (v : jsval) (obj : jsval) : jsval :=
  match obj with
  | JObj props =>
      if bool_decide (is_Some (find (λ kv : string * jsval,
                                       bool_decide (kv.1 = key)) props))
      then JObj (map (λ kv : string * jsval,
                        if bool_decide (kv.1 = key) then (key, v) else kv)
                     props)
      else JObj (props ++ [(key, v)])
  | _ => obj
  end.

(** [collectedData] once [meta] has been added. *)
Definition with_meta (b : browser) (collectedData : jsval) : jsval :=
  set_prop "meta"
    (JObj [("collectionTime", JNum (perf_at_resolved b - perf_at_start b))])
    collectedData.

(** The body of the POST to [/api/track]. *)
Definition track_request (b : browser) (collectedData : jsval) : jsval :=
  JObj [("id", JNum (TRACKING_ID b));
        ("clientData", JObj [("basic", get_prop "basic" collectedData);
                             ("hardware", get_prop "hardware" collectedData);
                             ("graphics", get_prop "graphics" collectedData)]);
        ("behavior", get_prop "behavior" collectedData);
        ("nuclearData", collectedData)].

Definition fetch (b : browser) (url : string) (body : jsval) : run jsval :=
  Run [FetchPost url (default "undefined" (stringify body))] (fetch_result b).

(** The main execution: the async function expression the script runs. *)
Definition boot (b : browser) : run unit :=
  try_finally
    (try_catch
       (collectedData ← await (collectAllData b);
        let collectedData := with_meta b collectedData in
        _ ← fetch b "/api/track" (track_request b collectedData);
        mret tt)
       (λ error, emit (ConsoleError "Tracking error:" error)))
    (emit (Navigate (TARGET_URL b))).

(** *** Runs in closed form

    The effects of one run, the samples a timeline leaves in each array,
    and the shape of the page state between events. *)

(** The request the boot script sends for a collected payload. *)
Definition delivery (b : browser) (collectedData : jsval) : effect :=
  FetchPost "/api/track"
    (default "undefined"
       (stringify (track_request b (with_meta b collectedData)))).

(** The line the catch block writes to the console. *)
Definition logged (e : jsval) : effect := ConsoleError "Tracking error:" e.

(** The sample each handler pushes for an event of its own kind. *)
Definition mouse_sample (t0 : Z) (te : Z * event) : option jsval :=
  match te.2 with
  | MouseMove x y =>
      Some (JObj [("x", JNum x); ("y", JNum y); ("t", JNum (te.1 - t0))])
  | _ => None
  end.

Definition scroll_sample (te : Z * event) : option jsval :=
  match te.2 with
  | ScrollTo y => Some (JObj [("y", JNum y); ("t", JNum te.1)])
  | _ => None
  end.

Definition key_sample (origin : Z) (te : Z * event) : option jsval :=
  match te.2 with
  | KeyDown key code =>
      Some (JObj [("key", JStr key); ("code", JStr code);
                  ("t", JNum (te.1 - origin))])
  | _ => None
  end.

Definition touch_sample (origin : Z) (te : Z * event) : option jsval :=
  match te.2 with
  | TouchStart x y =>
      Some (JObj [("x", JNum x); ("y", JNum y); ("t", JNum (te.1 - origin))])
  | _ => None
  end.

(** The events that arrive before the first one at or past [due]. *)
Fixpoint window (due : Z) (timeline : list (Z * event)) : list (Z * event) :=
  match timeline with
  | [] => []
  | te :: rest => if bool_decide (te.1 < due) then te :: window due rest else []
  end.

Definition in_window (due : Z) (te : Z * event) : bool :=
  bool_decide (te.1 < due).

(** What the [mousemove] handler does to its own listener. *)
Definition mouse_step (t0 : Z) (m : listener) (te : Z * event) : listener :=
  match mouse_sample t0 te with
  | Some v =>
      if listening m then
        let m' := push v m in
        if bool_decide (50 ≤ length (samples m'))%nat then retire m' else m'
      else m
  | None => m
  end.

(** The states the page goes through: the three timed listeners are all
    armed with their timers pending ([open]), or all retired. *)
Definition st_form (origin t0 : Z) (has_touch open : bool) (m : listener)
    (ss ks ts : list jsval) : page_state :=
  {| timeOrigin := origin;
     startTime := t0;
     mouse := m;
     scroll_ := {| listening := open; samples := ss |};
     keyboard := {| listening := open; samples := ks |};
     touch := if has_touch then Some {| listening := open; samples := ts |}
              else None;
     timers := if open
               then ([(t0 + 1000, scroll); (t0 + 1000, keydown)]
                     ++ (if has_touch then [(t0 + 1000, touchstart)] else []))%list
               else [] |}.

(** The samples one event adds to a timed listener. *)
Definition option_list_if {A} (c : bool) (o : option A) : list A :=
  if c then option_list o else [].

(** The page state after the listeners were set at [t0] and the events of
    [timeline] were delivered. *)
Definition listeners_after (origin t0 : Z) (has_touch : bool)
    (timeline : list (Z * event)) : page_state :=
  run_events (getBehaviorData origin t0 has_touch) timeline.

(** *** Concrete browsers

    [guarded] is what every probe with a [try]/[catch] of its own meets. *)

Definition sample_browser (basic fonts guarded fetched : outcome jsval)
  : browser :=
  {| TRACKING_ID := 1;
     TARGET_URL := "https://example.com";
     time_origin := 0;
     perf_at_start := 12;
     perf_at_resolved := 40;
     date_at_behavior := 40;
     iso_timestamp := "2025-01-01T00:00:00.040Z";
     basic_reads := basic;
     gpu_reads := guarded;
     hardwareConcurrency := JNum 8;
     wasm_check := Ret true;
     little_endian := true;
     has_getBattery := true;
     battery_reads := guarded;
     has_storage_estimate := true;
     storage_reads := guarded;
     has_enumerateDevices := true;
     devices_reads := guarded;
     has_Accelerometer := false;
     accelerometer_reading := Hang;
     has_Gyroscope := false;
     gyroscope_reading := Hang;
     canvas_reads := guarded;
     webgl_reads := guarded;
     webgl2_reads := guarded;
     video_reads := guarded;
     fonts_reads := fonts;
     css_reads := Ret (JObj [("flexbox", JBool true); ("grid", JBool true);
                             ("transforms", JBool true)]);
     ontouchstart_in_window := false;
     fetch_result := fetched |}.

Definition basic_ok : outcome jsval :=
  Ret (JObj [("platform", JStr "Linux x86_64"); ("language", JStr "en-US")]).

Definition fonts_ok : outcome jsval := Ret (JArr [JStr "Arial"]).

Definition answered : outcome jsval := Ret (JObj [("status", JNum 200)]).

(** Every probe works and the server answers. *)
Definition working : browser :=
  sample_browser basic_ok fonts_ok (Ret JNull) answered.

(** The same, with a delivery request that is never answered. *)
Definition pending_delivery : browser :=
  sample_browser basic_ok fonts_ok (Ret JNull) Hang.

(** The script runs before the document has a body: [getFontList] throws
    at [document.body.appendChild]. *)
Definition no_document_body : browser :=
  sample_browser basic_ok (Throw (JStr "TypeError: document.body is null"))
    (Ret JNull) answered.

(** Every probe meets an exception. *)
Definition every_probe_throws : browser :=
  sample_browser (Throw (JStr "ReferenceError: Intl is not defined"))
    (Throw (JStr "TypeError: document.body is null"))
    (Throw (JStr "SecurityError")) answered.

(** Sixty scroll events in the first sixty milliseconds after the listeners
    were set at time 1000. *)
Definition sixty_scrolls : list (Z * event) :=
  map (λ i : nat, (1000 + Z.of_nat i, ScrollTo (10 * Z.of_nat i))) (seq 1 60).

(** *** Probes that cannot throw, and a sensor that stays silent *)

(** A computation that returns or is still waiting, but does not throw. *)
Definition never_throws {A} (o : outcome A) : Prop :=
  match o with
  | Throw _ => False
  | _ => True
  end.

(** A sensor that is present and never delivers a reading. *)
Definition silent_sensor (b : browser) : Prop :=
  has_Accelerometer b = true ∧ accelerometer_reading b = Hang
  ∨ has_Gyroscope b = true ∧ gyroscope_reading b = Hang.

(** A device with an accelerometer that never fires a reading. *)
Definition silent_accelerometer : browser :=
  {| TRACKING_ID := 1;
     TARGET_URL := "https://example.com";
     time_origin := 0;
     perf_at_start := 12;
     perf_at_resolved := 40;
     date_at_behavior := 40;
     iso_timestamp := "2025-01-01T00:00:00.040Z";
     basic_reads := basic_ok;
     gpu_reads := Ret JNull;
     hardwareConcurrency := JNum 8;
     wasm_check := Ret true;
     little_endian := true;
     has_getBattery := false;
     battery_reads := Hang;
     has_storage_estimate := false;
     storage_reads := Hang;
     has_enumerateDevices := false;
     devices_reads := Hang;
     has_Accelerometer := true;
     accelerometer_reading := Hang;
     has_Gyroscope := false;
     gyroscope_reading := Hang;
     canvas_reads := Ret JNull;
     webgl_reads := Ret JNull;
     webgl2_reads := Ret JNull;
     video_reads := Ret JNull;
     fonts_reads := fonts_ok;
     css_reads := Ret (JObj []);
     ontouchstart_in_window := false;
     fetch_result := answered |}.

(** *** Reads that never settle, and the leaves of the payload *)

(** An awaited operation that never settles, and one that returns. *)
Definition hangs {A} (o : outcome A) : bool :=
  match o with Hang => true | _ => false end.

Definition resolves {A} (o : outcome A) : bool :=
  match o with Ret _ => true | _ => false end.









End Tracking.

(** ** Request bodies as parsed JSON *)

Module Requests.
Import Js Server.

(** One field of a parsed JSON body, read as the string model reads it:
    absent or null, or a string. Any other JSON value (a number, a boolean,
    an array, an object) is outside the model. *)
Definition string_field (key : string) (parsed : jsval)
  : option (option string) :=
  match Tracking.get_prop key parsed with
  | JUndefined | JNull => Some None
  | JStr s => Some (Some s)
  | _ => None
  end.

(** [const { url, customCode } = req.body], for the bodies the string model
    covers: a JSON object whose two fields are strings, null or absent. *)
Definition create_body_of (parsed : jsval) : option create_body :=
  match parsed with
  | JObj _ =>
      u ← string_field "url" parsed;
      cc ← string_field "customCode" parsed;
      Some {| url := u; customCode := cc |}
  | _ => None
  end.

(** The states the running server goes through when every create request
    carries its url and customCode as strings (or leaves them out), and
    every generated code comes from [generateCode] on four random bytes. *)
Inductive served_strings (sha256_hex : string → string) : db → Prop :=
| served_init : served_strings sha256_hex empty_db
| served_create flt random parsed body s :
    served_strings sha256_hex s → length random = 4%nat →
    create_body_of parsed = Some body →
    served_strings sha256_hex
      (post_api_create flt (generateCode random) body s).2
| served_visit flt timing req code s :
    served_strings sha256_hex s →
    served_strings sha256_hex (get_code flt timing req code s).2
| served_track update_error body s :
    served_strings sha256_hex s →
    served_strings sha256_hex
      (post_api_track sha256_hex update_error body s).2.

(** The parsed bodies of the two create requests behind [linked_db] and
    [generated_db]. *)
Definition first_create_json : jsval :=
  JObj [("url", JStr "https://example.com"); ("customCode", JStr "abc123")].

Definition second_create_json : jsval :=
  JObj [("url", JStr "https://example.org/long/path");
        ("customCode", JStr EmptyString)].

End Requests.

(** ** The shortening form: the page script that calls [POST /api/create] *)

Module Form.
Import Js Server Tracking.

(** What the form script does to the page and the network, in order. *)
Inductive effect : Type :=
| Alert (message : string)
| Post (url body : string)
| ConsoleError (label : string) (error : jsval)
| ShowLink (fullUrl : string) (existing : bool).

(** A value read as a condition. *)
Definition truthy (v : jsval) : bool :=
  match v with
  | JUndefined | JNull | JBool false | JNum 0 => false
  | JStr s => negb (bool_decide (s = EmptyString))
  | _ => true
  end.

(** A value turned into text, as [alert] and a template literal do. *)
Fixpoint ToString (v : jsval) : string :=
  match v with
  | JUndefined => "undefined"
  | JNull => "null"
  | JBool true => "true"
  | JBool false => "false"
  | JNum n => number_to_string n
  | JStr s => s
  | JArr items =>
      join_comma
        ((fix go (l : list jsval) : list string :=
            match l with
            | [] => []
            | JUndefined :: l' | JNull :: l' => EmptyString :: go l'
            | x :: l' => ToString x :: go l'
            end) items)
  | JObj _ => "[object Object]"
  end.

(** The error a property read on [null] or [undefined] throws. *)
Definition type_error : jsval := JStr "TypeError: data is null".

(** The submit handler. [trim] is [String.prototype.trim]; [reply] is what
    the two awaits ([fetch], then [response.json()]) give: the parsed body,
    an exception, or nothing yet. *)
Definition submit (trim : string → string) (origin url_value custom_value : string)
    (reply : outcome jsval) : list effect :=
  let url := trim url_value in
  let customCode := trim custom_value in
  if bool_decide (url = EmptyString) then [Alert "Please enter a URL"]
  else
    Post "/api/create"
      (stringify_obj [("url", JStr url); ("customCode", JStr customCode)])
    :: match reply with
       | Hang => []
       | Throw err =>
           [ConsoleError "Error:" err; Alert "Failed to create short link"]
       | Ret (JUndefined | JNull) =>
           [ConsoleError "Error:" type_error;
            Alert "Failed to create short link"]
       | Ret data =>
           if truthy (get_prop "error" data)
           then [Alert (ToString (get_prop "error" data))]
           else [ShowLink (origin +:+ "/" +:+ ToString (get_prop "code" data))
                   (truthy (get_prop "existing" data))]
       end.

(** What [response.json()] gives for a response of the server. *)
Definition reply_of (resp : response) : outcome jsval :=
  match resp with
  | SendJson _ body => Ret body
  | _ => Throw (JStr "SyntaxError: Unexpected token")
  end.

(** One submit against the server: the request body reaches
    [POST /api/create] with both fields as strings. *)
Definition submit_to (trim : string → string)
    (origin url_value custom_value : string)
    (flt : create_faults) (generated : string) (s : db) : list effect * db :=
  if bool_decide (trim url_value = EmptyString)
  then (submit trim origin url_value custom_value Hang, s)
  else
    let served :=
      post_api_create flt generated
        {| url := Some (trim url_value);
           customCode := Some (trim custom_value) |} s in
    (submit trim origin url_value custom_value (reply_of served.1), served.2).

(** The request body the form sends. *)
Definition request_body (trim : string → string)
    (url_value custom_value : string) : string :=
  stringify_obj [("url", JStr (trim url_value));
                 ("customCode", JStr (trim custom_value))].

(** Leading blanks removed. *)
Fixpoint drop_spaces (s : string) : string :=
  match s with
  | String " " rest => drop_spaces rest
  | _ => s
  end.

Definition reverse_string (s : string) : string :=
  string_of_list_ascii (rev (list_ascii_of_string s)).

(** A stand-in for [trim] on blanks, for running the form on concrete
    input. *)
Definition trim_spaces (s : string) : string :=
  reverse_string (drop_spaces (reverse_string (drop_spaces s))).

End Form.

(** * Properties of the server *)

Module ServerProps.
Import Js Server.

Section Digest.
Variable sha256_hex : string → string.

Local Abbreviation post_api_track := (post_api_track sha256_hex).
Local Abbreviation composite_hash := (composite_hash sha256_hex).
Local Abbreviation reachable := (reachable sha256_hex).

(** The UPDATE when no row matches: nothing changes and nothing fails but
    the storage layer itself. *)
Lemma update_unknown err cd bd nd h i s :
  record_of i s = None →
  update_fingerprint err cd bd nd h i s
  = if err then SqlError "SQLITE_IOERR" else SqlOk s.
Proof.
  unfold record_of, update_fingerprint. intros Hnone.
  destruct err; [done|].
  destruct i as [i|]; simpl in *; [|done].
  by rewrite Hnone.
Qed.

(** What a successful UPDATE of an existing row leaves in it. *)
Lemma update_known err cd bd nd h i r s s' :
  fingerprints s !! i = Some r →
  update_fingerprint err cd bd nd h (Some i) s = SqlOk s' →
  ∃ r', fingerprints s' !! i = Some r'
        ∧ client_data r' = cd ∧ behavior_data r' = bd
        ∧ nuclear_data r' = nd ∧ hash r' = Some h
        ∧ server_data r' = server_data r.
Proof.
  unfold update_fingerprint. intros Hr Hup.
  destruct err; [done|]. rewrite Hr in Hup.
  destruct (hash_taken i h (fingerprints s)); [done|].
  simplify_eq; simpl. rewrite lookup_insert_eq. eauto 10.
Qed.

Lemma track_ok_inv err body s resp s' :
  post_api_track err body s = (resp, s') →
  status_of resp = 200 →
  update_fingerprint err (stringify (clientData body))
    (stringify (behavior body)) (stringify (combined body))
    (composite_hash body) (id body) s = SqlOk s'.
Proof.
  unfold Server.post_api_track. intros Hrun Hst.
  destruct (update_fingerprint _ _ _ _ _ _ _); by simplify_eq.
Qed.

(** C3 (as the code has it): a correlate call whose id matches no record
    leaves the whole database as it was and creates no record; the response
    is the plain success status 200, or 500 when the storage layer itself
    fails. No not-found status is ever produced. *)
Theorem track_unknown_id_unchanged err body s :
  record_of (id body) s = None →
  post_api_track err body s
  = (if err then Send 500 EmptyString else Send 200 "OK", s).
Proof.
  intros Hnone. unfold Server.post_api_track.
  rewrite (update_unknown _ _ _ _ _ _ _ Hnone). by destruct err.
Qed.

(** C4: after a correlate call that succeeded on an existing record, the
    record's combined payload is the serialised [{clientData, behavior}]
    object that was supplied and its hash is the digest of that very string;
    two such calls with the same clientData and behavior store the same
    hash. *)
Theorem track_stores_payload_and_hash :
  (∀ err body s resp s' i r,
     post_api_track err body s = (resp, s') → status_of resp = 200 →
     id body = Some i → fingerprints s !! i = Some r →
     ∃ r', fingerprints s' !! i = Some r'
           ∧ nuclear_data r' = stringify (combined body)
           ∧ nuclear_data r'
             = Some (stringify_obj [("clientData", clientData body);
                                    ("behavior", behavior body)])
           ∧ hash r' = sha256_hex <$> nuclear_data r')
  ∧ (∀ err1 body1 s1 resp1 s1' i1 r1 err2 body2 s2 resp2 s2' i2 r2,
       post_api_track err1 body1 s1 = (resp1, s1') → status_of resp1 = 200 →
       id body1 = Some i1 → fingerprints s1 !! i1 = Some r1 →
       post_api_track err2 body2 s2 = (resp2, s2') → status_of resp2 = 200 →
       id body2 = Some i2 → fingerprints s2 !! i2 = Some r2 →
       clientData body1 = clientData body2 → behavior body1 = behavior body2 →
       ∃ h, hash <$> fingerprints s1' !! i1 = Some (Some h)
            ∧ hash <$> fingerprints s2' !! i2 = Some (Some h)).
Proof.
  assert (Hone : ∀ err body s resp s' i r,
     post_api_track err body s = (resp, s') → status_of resp = 200 →
     id body = Some i → fingerprints s !! i = Some r →
     ∃ r', fingerprints s' !! i = Some r'
           ∧ nuclear_data r' = stringify (combined body)
           ∧ hash r' = Some (composite_hash body)).
  { intros err body s resp s' i r Hrun Hst Hid Hr.
    pose proof (track_ok_inv _ _ _ _ _ Hrun Hst) as Hup. rewrite Hid in Hup.
    destruct (update_known _ _ _ _ _ _ _ _ _ Hr Hup)
      as (r' & Hr' & _ & _ & Hnd & Hh & _). eauto. }
  split.
  - intros err body s resp s' i r Hrun Hst Hid Hr.
    destruct (Hone _ _ _ _ _ _ _ Hrun Hst Hid Hr) as (r' & Hr' & Hnd & Hh).
    exists r'. rewrite Hnd, Hh. done.
  - intros err1 body1 s1 resp1 s1' i1 r1 err2 body2 s2 resp2 s2' i2 r2
      Hrun1 Hst1 Hid1 Hr1 Hrun2 Hst2 Hid2 Hr2 Hcd Hbh.
    destruct (Hone _ _ _ _ _ _ _ Hrun1 Hst1 Hid1 Hr1) as (r1' & Hr1' & _ & Hh1).
    destruct (Hone _ _ _ _ _ _ _ Hrun2 Hst2 Hid2 Hr2) as (r2' & Hr2' & _ & Hh2).
    exists (composite_hash body1). rewrite Hr1', Hr2'. simpl.
    rewrite Hh1, Hh2. unfold Server.composite_hash. by rewrite Hcd, Hbh.
Qed.

(** C5: when the code resolves to a link and the INSERT of the
    correlation record fails, the visitor is redirected to the stored target
    URL; no error response is produced. *)
Theorem insert_failure_still_redirects flt timing req code s lnk :
  select_link_error flt = false →
  select_by_code code (links s) = Some lnk →
  insert_fingerprint_error flt = true →
  get_code flt timing req code s = (Redirect (target_url lnk), s).
Proof.
  intros Hsel Hlnk Hins. unfold get_code, insert_fingerprint.
  by rewrite Hsel, Hlnk, Hins.
Qed.

(** *** The invariant of the fingerprints table *)

Lemma insert_link_fingerprints err code u s s' :
  insert_link err code u s = SqlOk s' → fingerprints s' = fingerprints s.
Proof.
  unfold insert_link. destruct err; [done|].
  case_bool_decide; [done|]. by intros [= <-].
Qed.

Lemma create_fingerprints flt generated body s :
  fingerprints (post_api_create flt generated body s).2 = fingerprints s.
Proof.
  unfold post_api_create.
  destruct (nonempty (url body)) as [u|]; [|done].
  destruct (if select_url_error flt then _ else _); [done|].
  assert (Hins : ∀ c, fingerprints
            (match insert_link (insert_link_error flt) c u s with
             | SqlError _ =>
                 (SendJson 500 (error_body "Internal server error"), s)
             | SqlOk s' => (SendJson 200 (JObj [("code", JStr c)]), s')
             end).2 = fingerprints s).
  { intros c. destruct (insert_link _ c u s) as [s'|] eqn:Hi; [|done].
    simpl. by eapply insert_link_fingerprints. }
  destruct (nonempty (customCode body)) as [cc|]; simpl; [|apply Hins].
  destruct (if select_code_error flt then _ else _); [done|].
  destruct (negb _); [done|]. apply Hins.
Qed.

Lemma visit_creates flt timing req code s p s' :
  get_code flt timing req code s = (SendPage p, s') →
  ∃ r, fingerprints s' = <[page_TRACKING_ID p := r]> (fingerprints s)
       ∧ hash r = None ∧ nuclear_data r = None
       ∧ client_data r = None ∧ behavior_data r = None.
Proof.
  unfold get_code, insert_fingerprint.
  destruct (if select_link_error flt then _ else _) as [lnk|]; [|done].
  destruct (insert_fingerprint_error flt); [done|].
  intros [= <- <-]. simpl. eauto 10.
Qed.

Lemma visit_invariant flt timing req code s :
  map_Forall (λ _, hash_iff_payload) (fingerprints s) →
  map_Forall (λ _, hash_iff_payload)
    (fingerprints (get_code flt timing req code s).2).
Proof.
  intros Hinv.
  destruct (get_code flt timing req code s) as [[| | |p] s'] eqn:Hrun;
    simpl.
  4: { destruct (visit_creates _ _ _ _ _ _ _ Hrun) as (r & -> & Hh & Hn & _).
       apply map_Forall_insert_2; [|done].
       unfold hash_iff_payload. rewrite Hh, Hn. done. }
  all: revert Hrun; unfold get_code, insert_fingerprint;
    destruct (if select_link_error flt then _ else _) as [lnk|];
    [destruct (insert_fingerprint_error flt)|]; intros ?; by simplify_eq.
Qed.

Lemma track_invariant err body s :
  map_Forall (λ _, hash_iff_payload) (fingerprints s) →
  map_Forall (λ _, hash_iff_payload)
    (fingerprints (post_api_track err body s).2).
Proof.
  intros Hinv. unfold Server.post_api_track, update_fingerprint.
  destruct err; [done|].
  destruct (id body) as [i|]; [|done].
  destruct (fingerprints s !! i) as [r|] eqn:Hr; [|done].
  destruct (hash_taken i _ (fingerprints s)); [done|]. simpl.
  apply map_Forall_insert_2; [|done].
  unfold hash_iff_payload; simpl. split; eauto.
Qed.

(** C8: in every state the store can reach, a record has a content hash if
    and only if it has a combined payload; the record a visit creates has
    neither, and a correlate call that succeeds on an existing record leaves
    it with both. *)
Theorem hash_present_iff_payload_present :
  (∀ s, reachable s →
     ∀ i r, fingerprints s !! i = Some r →
       (is_Some (hash r) ↔ is_Some (nuclear_data r)))
  ∧ (∀ flt timing req code s p s',
       get_code flt timing req code s = (SendPage p, s') →
       ∃ r, fingerprints s' !! page_TRACKING_ID p = Some r
            ∧ hash r = None ∧ nuclear_data r = None)
  ∧ (∀ err body s resp s' i r,
       post_api_track err body s = (resp, s') → status_of resp = 200 →
       id body = Some i → fingerprints s !! i = Some r →
       ∃ r', fingerprints s' !! i = Some r'
             ∧ is_Some (hash r') ∧ is_Some (nuclear_data r')).
Proof.
  split; [|split].
  - intros s Hreach.
    enough (map_Forall (λ _, hash_iff_payload) (fingerprints s)) as Hinv
      by (intros i r Hr; exact (Hinv i r Hr)).
    induction Hreach as [|s s' _ IH Hstep].
    + apply map_Forall_empty.
    + destruct Hstep.
      * by rewrite create_fingerprints.
      * by apply visit_invariant.
      * by apply track_invariant.
  - intros flt timing req code s p s' Hrun.
    destruct (visit_creates _ _ _ _ _ _ _ Hrun) as (r & -> & Hh & Hn & _).
    exists r. by rewrite lookup_insert_eq.
  - intros err body s resp s' i r Hrun Hst Hid Hr.
    pose proof (track_ok_inv _ _ _ _ _ Hrun Hst) as Hup. rewrite Hid in Hup.
    destruct (update_known _ _ _ _ _ _ _ _ _ Hr Hup)
      as (r' & Hr' & _ & _ & Hnd & Hh & _).
    exists r'. rewrite Hnd, Hh. split; [done|]. split; eauto.
Qed.

(** *** The links table *)

Lemma nonempty_Some o u : nonempty o = Some u → o = Some u ∧ u ≠ EmptyString.
Proof.
  destruct o as [x|]; simpl; [|done].
  case_bool_decide; [done|]. by intros [= <-].
Qed.

Lemma insert_link_links err code u s s' :
  insert_link err code u s = SqlOk s' →
  ∃ i, links s' = (links s ++ [{| link_id := i; short_code := code;
                                   target_url := u |}])%list.
Proof.
  unfold insert_link. destruct err; [done|].
  case_bool_decide; [done|]. intros [= <-]. simpl. eauto.
Qed.

Lemma create_links flt generated body s :
  Forall (λ r, target_url r ≠ EmptyString) (links s) →
  Forall (λ r, target_url r ≠ EmptyString)
    (links (post_api_create flt generated body s).2).
Proof.
  intros Hinv. unfold post_api_create.
  destruct (nonempty (url body)) as [u|] eqn:Hu; [|done].
  apply nonempty_Some in Hu as [_ Hu].
  destruct (if select_url_error flt then _ else _); [done|].
  assert (Hins : ∀ c, Forall (λ r, target_url r ≠ EmptyString) (links
            (match insert_link (insert_link_error flt) c u s with
             | SqlError _ =>
                 (SendJson 500 (error_body "Internal server error"), s)
             | SqlOk s' => (SendJson 200 (JObj [("code", JStr c)]), s')
             end).2)).
  { intros c. destruct (insert_link _ c u s) as [s'|] eqn:Hi; [|done].
    simpl. destruct (insert_link_links _ _ _ _ _ Hi) as [i ->].
    apply Forall_app. split; [done|]. by apply Forall_singleton. }
  destruct (nonempty (customCode body)) as [cc|]; simpl; [|apply Hins].
  destruct (if select_code_error flt then _ else _); [done|].
  destruct (negb _); [done|]. apply Hins.
Qed.

Lemma visit_links flt timing req code s :
  links (get_code flt timing req code s).2 = links s.
Proof.
  unfold get_code, insert_fingerprint.
  destruct (if select_link_error flt then _ else _) as [lnk|]; [|done].
  by destruct (insert_fingerprint_error flt).
Qed.

Lemma track_links err body s :
  links (post_api_track err body s).2 = links s.
Proof.
  unfold Server.post_api_track, update_fingerprint.
  destruct err; [done|].
  destruct (id body) as [i|]; [|done].
  destruct (fingerprints s !! i) as [r|]; [|done].
  by destruct (hash_taken i _ (fingerprints s)).
Qed.

Lemma reachable_targets_nonempty s :
  reachable s → Forall (λ r, target_url r ≠ EmptyString) (links s).
Proof.
  induction 1 as [|s s' _ IH Hstep]; [by constructor|].
  destruct Hstep.
  - by apply create_links.
  - by rewrite visit_links.
  - by rewrite track_links.
Qed.

(** C10: when the url of a create request already has a short code, the
    answer is that code flagged as existing and the database is left as it
    was, whatever customCode the request carries: taken, malformed or
    absent. *)
Theorem create_existing_ignores_customCode s flt generated u cc row :
  reachable s →
  select_url_error flt = false →
  select_by_target u (links s) = Some row →
  post_api_create flt generated {| url := Some u; customCode := cc |} s
  = (SendJson 200 (JObj [("code", JStr (short_code row));
                         ("existing", JBool true)]), s).
Proof.
  intros Hreach Hsel Hrow.
  pose proof (reachable_targets_nonempty _ Hreach) as Hne.
  apply find_some in Hrow as Hrow'. destruct Hrow' as [Hin Htarget].
  apply bool_decide_eq_true in Htarget.
  rewrite Forall_forall in Hne. apply list_elem_of_In in Hin.
  specialize (Hne _ Hin). rewrite Htarget in Hne.
  unfold post_api_create, nonempty. simpl.
  rewrite bool_decide_eq_false_2 by done.
  by rewrite Hsel, Hrow.
Qed.

End Digest.

(** *** The handlers on concrete requests *)

Lemma linked_db_reachable : reachable sample_digest linked_db.
Proof. eapply reachable_step; [apply reachable_init | apply step_create]. Qed.

Lemma visited_db_reachable : reachable sample_digest visited_db.
Proof. eapply reachable_step; [apply linked_db_reachable | apply step_visit]. Qed.

Lemma correlated_db_reachable : reachable sample_digest correlated_db.
Proof. eapply reachable_step; [apply visited_db_reachable | apply step_track]. Qed.

Example visit_serves_page :
  (get_code no_visit_faults 2 sample_request "abc123" linked_db).1
  = SendPage {| page_TRACKING_ID := 1;
                page_TARGET_URL := quote "https://example.com";
                page_noscript_url := "https://example.com" |}.
Proof. reflexivity. Qed.

Example visit_unknown_code :
  get_code no_visit_faults 2 sample_request "nope" linked_db
  = (Send 404 "Link not found", linked_db).
Proof. reflexivity. Qed.

(** An empty behavior object is stored as an empty structure, not as NULL. *)
Example track_keeps_empty_behavior :
  behavior_data <$> fingerprints correlated_db !! 1 = Some (Some "{}").
Proof. vm_compute. reflexivity. Qed.

Lemma track_unknown_id_unchanged_witness :
  record_of (id stray_track) empty_db = None
  ∧ post_api_track sample_digest false stray_track empty_db
    = (Send 200 "OK", empty_db).
Proof.
  split; [reflexivity|].
  apply (track_unknown_id_unchanged sample_digest false stray_track empty_db).
  reflexivity.
Defined.

(** C3, as the spec words it, fails: with one record in the store (id 1), a
    correlate call for id 42 is answered 200, not 404. *)
Lemma track_unknown_id_answers_200 :
  fingerprints visited_db !! 42 = None
  ∧ status_of (post_api_track sample_digest false stray_track visited_db).1
    = 200
  ∧ status_of (post_api_track sample_digest false stray_track visited_db).1
    ≠ 404
  ∧ (post_api_track sample_digest false stray_track visited_db).2 = visited_db.
Proof. vm_compute. repeat split; congruence. Qed.

Lemma track_stores_payload_and_hash_witness :
  post_api_track sample_digest false sample_track visited_db
  = (Send 200 "OK", correlated_db)
  ∧ ∃ r', fingerprints correlated_db !! 1 = Some r'
          ∧ nuclear_data r' = stringify (combined sample_track)
          ∧ nuclear_data r'
            = Some (stringify_obj [("clientData", clientData sample_track);
                                   ("behavior", behavior sample_track)])
          ∧ hash r' = sample_digest <$> nuclear_data r'.
Proof.
  split; [reflexivity|].
  eapply (proj1 (track_stores_payload_and_hash sample_digest)
            false sample_track visited_db (Send 200 "OK") correlated_db 1);
    reflexivity.
Defined.

Lemma insert_failure_still_redirects_witness :
  get_code failing_insert 2 sample_request "abc123" linked_db
  = (Redirect "https://example.com", linked_db).
Proof.
  apply (insert_failure_still_redirects failing_insert 2 sample_request
           "abc123" linked_db
           {| link_id := 1; short_code := "abc123";
              target_url := "https://example.com" |});
    reflexivity.
Defined.

Lemma hash_present_iff_payload_present_witness :
  ∃ r, fingerprints correlated_db !! 1 = Some r
       ∧ (is_Some (hash r) ↔ is_Some (nuclear_data r)).
Proof.
  eexists. split; [reflexivity|].
  eapply (proj1 (hash_present_iff_payload_present sample_digest)
            correlated_db correlated_db_reachable 1).
  reflexivity.
Defined.

(** A custom code that is both malformed and too short. *)
Lemma create_existing_ignores_customCode_witness :
  code_format_ok "!" = false
  ∧ post_api_create no_create_faults "9f3a1c2e"
      {| url := Some "https://example.com"; customCode := Some "!" |}
      correlated_db
    = (SendJson 200 (JObj [("code", JStr "abc123"); ("existing", JBool true)]),
       correlated_db).
Proof.
  split; [reflexivity|].
  apply (create_existing_ignores_customCode sample_digest correlated_db
           no_create_faults "9f3a1c2e" "https://example.com" (Some "!")
           {| link_id := 1; short_code := "abc123";
              target_url := "https://example.com" |}
           correlated_db_reachable);
    reflexivity.
Defined.

End ServerProps.

(** * Properties of the collector and its boot script *)

Module TrackingProps.
Import Js Tracking.

(** Every way the boot script can run, by what collection and delivery do. *)
Lemma boot_cases b :
  boot b =
  match collectAllData b with
  | Ret data =>
      match fetch_result b with
      | Ret _ => Run [delivery b data; Navigate (TARGET_URL b)] (Ret tt)
      | Throw e =>
          Run [delivery b data; logged e; Navigate (TARGET_URL b)] (Ret tt)
      | Hang => Run [delivery b data] Hang
      end
  | Throw e => Run [logged e; Navigate (TARGET_URL b)] (Ret tt)
  | Hang => Run [] Hang
  end.
Proof.
  unfold boot, try_finally, try_catch, await, fetch, emit, delivery, logged.
  unfold mbind, run_bind, mret, run_ret. simpl.
  destruct (collectAllData b); simpl; [|done..].
  destruct (fetch_result b); done.
Qed.

(** C2 (as the code has it): the boot script awaits the delivery request.
    Once collection has resolved, the request is issued first and navigation
    follows only when the request has settled, fulfilled or rejected; while
    it is pending the script has not navigated. *)
Theorem navigation_waits_for_delivery b data :
  collectAllData b = Ret data →
  (fetch_result b = Hang → boot b = Run [delivery b data] Hang)
  ∧ (fetch_result b ≠ Hang →
       result (boot b) = Ret tt
       ∧ ∃ between,
           trace (boot b)
           = (delivery b data :: between ++ [Navigate (TARGET_URL b)])%list)
  ∧ (Navigate (TARGET_URL b) ∈ trace (boot b) ↔ fetch_result b ≠ Hang).
Proof.
  intros Hdata. rewrite boot_cases, Hdata.
  assert (Hlast : ∀ mid : list effect,
            Navigate (TARGET_URL b) ∈ (mid ++ [Navigate (TARGET_URL b)])%list).
  { intros mid. apply elem_of_app. right. by apply list_elem_of_singleton. }
  destruct (fetch_result b) as [r|e|]; simpl; (split; [|split]);
    try done.
  - intros _. split; [done|]. by exists [].
  - split; [done|]. intros _. apply (Hlast [delivery b data]).
  - intros _. split; [done|]. by exists [logged e].
  - split; [done|]. intros _. apply (Hlast [delivery b data; logged e]).
  - split; [|done]. intros Hin%list_elem_of_singleton. by unfold delivery in Hin.
Qed.

(** *** The collector *)

Lemma three_groups_Ret (basic hardware graphics : outcome jsval)
    (f : jsval → jsval → jsval → jsval) payload :
  (x ← basic; y ← hardware; z ← graphics; mret (f x y z)) = Ret payload ↔
  ∃ x y z, basic = Ret x ∧ hardware = Ret y ∧ graphics = Ret z
           ∧ payload = f x y z.
Proof.
  destruct basic as [x| |], hardware as [y| |], graphics as [z| |];
    cbn; split; try done;
    try (by intros (x' & y' & z' & ? & ? & ? & ?)).
  - intros [= <-]. by exists x, y, z.
  - by intros (x' & y' & z' & [= ->] & [= ->] & [= ->] & ->).
Qed.








(** *** The collection timer *)

Lemma get_set_prop key v props :
  get_prop key (set_prop key v (JObj props)) = v.
Proof.
  unfold set_prop, get_prop. case_bool_decide as Hfound.
  - induction props as [|[k x] props IH]; simpl in *.
    + by destruct Hfound.
    + case_bool_decide as Hk; simpl in *.
      * by rewrite bool_decide_eq_true_2.
      * rewrite bool_decide_eq_false_2 by done. by apply IH.
  - assert (Hnone : find (λ kv : string * jsval, bool_decide (kv.1 = key))
                      props = None).
    { destruct (find _ props); [|done]. destruct Hfound. eauto. }
    clear Hfound. induction props as [|[k x] props IH]; simpl in *.
    + by rewrite bool_decide_eq_true_2.
    + case_bool_decide; [done|]. by apply IH.
Qed.

Lemma collected_is_object b data :
  collectAllData b = Ret data → ∃ props, data = JObj props.
Proof.
  unfold collectAllData. intros Hdata.
  apply (three_groups_Ret (getBasicData b) (getHardwareData b)
           (getGraphicsData b)
           (λ x y z, JObj [("basic", x); ("hardware", y); ("graphics", z);
                           ("behavior", behavior_value (listeners_set b));
                           ("timestamp", JStr (iso_timestamp b))])) in Hdata.
  destruct Hdata as (x & y & z & _ & _ & _ & ->). eauto.
Qed.

(** C9 (as the code has it): when collection resolves, the payload handed
    to delivery carries [meta.collectionTime], the difference of the two
    clock readings, which is not negative on a monotonic clock; when
    collection rejects there is no payload and nothing is delivered. *)
Theorem payload_carries_collection_time b :
  (∀ data,
     collectAllData b = Ret data → perf_at_start b ≤ perf_at_resolved b →
     ∃ d, 0 ≤ d ∧ d = perf_at_resolved b - perf_at_start b
          ∧ get_prop "meta" (with_meta b data)
            = JObj [("collectionTime", JNum d)]
          ∧ get_prop "nuclearData" (track_request b (with_meta b data))
            = with_meta b data
          ∧ ∃ rest, trace (boot b) = delivery b data :: rest)
  ∧ (∀ e, collectAllData b = Throw e →
       trace (boot b) = [logged e; Navigate (TARGET_URL b)]).
Proof.
  split.
  - intros data Hdata Hclock.
    exists (perf_at_resolved b - perf_at_start b).
    split; [lia|]. split; [done|].
    destruct (collected_is_object _ _ Hdata) as [props ->].
    split; [apply get_set_prop|]. split; [done|].
    rewrite boot_cases, Hdata. destruct (fetch_result b); simpl; eauto.
  - intros e Hdata. by rewrite boot_cases, Hdata.
Qed.

(** *** The listeners over a timeline of input events *)

Lemma getBehaviorData_form origin t0 has_touch :
  getBehaviorData origin t0 has_touch
  = st_form origin t0 has_touch true armed [] [] [].
Proof. by destruct has_touch. Qed.

Lemma run_timers_form origin t0 has_touch open m ss ks ts now :
  run_timers now (st_form origin t0 has_touch open m ss ks ts)
  = st_form origin t0 has_touch (open && bool_decide (now < t0 + 1000))
      m ss ks ts.
Proof.
  destruct open; [|done].
  unfold run_timers, st_form; simpl.
  destruct has_touch; simpl; rewrite !filter_cons, !filter_nil; simpl;
    repeat case_decide; try lia; case_bool_decide; try lia; done.
Qed.

Lemma dispatch_form origin t0 has_touch open m ss ks ts te :
  dispatch (st_form origin t0 has_touch open m ss ks ts) te
  = st_form origin t0 has_touch (open && in_window (t0 + 1000) te)
      (mouse_step t0 m te)
      (ss ++ option_list_if (open && in_window (t0 + 1000) te)
               (scroll_sample te))
      (ks ++ option_list_if (open && in_window (t0 + 1000) te)
               (key_sample origin te))
      (ts ++ option_list_if (open && in_window (t0 + 1000) te)
               (touch_sample origin te)).
Proof.
  unfold dispatch. rewrite run_timers_form. fold (in_window (t0 + 1000) te).
  destruct te as [now ev].
  unfold mouse_step, mouse_sample, scroll_sample, key_sample, touch_sample,
    option_list_if.
  destruct (open && in_window (t0 + 1000) (now, ev)) eqn:Hopen;
    destruct ev; simpl; rewrite ?app_nil_r; try done.
  - by destruct (listening m).
  - by destruct has_touch.
  - by destruct (listening m).
  - by destruct has_touch.
Qed.

Lemma run_events_form origin t0 has_touch timeline :
  ∀ open m ss ks ts,
    run_events (st_form origin t0 has_touch open m ss ks ts) timeline
    = st_form origin t0 has_touch
        (open && forallb (in_window (t0 + 1000)) timeline)
        (foldl (mouse_step t0) m timeline)
        (ss ++ omap scroll_sample
                 (if open then window (t0 + 1000) timeline else []))
        (ks ++ omap (key_sample origin)
                 (if open then window (t0 + 1000) timeline else []))
        (ts ++ omap (touch_sample origin)
                 (if open then window (t0 + 1000) timeline else [])).
Proof.
  unfold run_events.
  induction timeline as [|te timeline IH]; intros open m ss ks ts; simpl.
  - rewrite andb_true_r. destruct open; simpl; by rewrite !app_nil_r.
  - rewrite dispatch_form, IH. unfold in_window, option_list_if.
    destruct open; simpl; [|by rewrite !app_nil_r].
    case_bool_decide; simpl; [|by rewrite !app_nil_r].
    rewrite <- !app_assoc. f_equal.
    + by destruct (scroll_sample te).
    + by destruct (key_sample origin te).
    + by destruct (touch_sample origin te).
Qed.

Lemma mouse_feed t0 timeline :
  ∀ m, listening m = bool_decide (length (samples m) < 50)%nat →
    (length (samples m) ≤ 50)%nat →
    samples (foldl (mouse_step t0) m timeline)
    = take 50 (samples m ++ omap (mouse_sample t0) timeline)
    ∧ listening (foldl (mouse_step t0) m timeline)
      = bool_decide
          (length (samples m ++ omap (mouse_sample t0) timeline) < 50)%nat.
Proof.
  induction timeline as [|te timeline IH]; intros m Hm Hlen; simpl.
  - rewrite app_nil_r. split; [|done]. by rewrite take_ge.
  - unfold mouse_step at 2 4. destruct (mouse_sample t0 te) as [v|]; [|by apply IH].
    destruct (listening m) eqn:Hl; symmetry in Hm.
    + apply bool_decide_eq_true in Hm.
      rewrite (cons_middle v), app_assoc.
      case_bool_decide as Hfull; simpl in Hfull; rewrite length_app in Hfull;
        simpl in Hfull.
      * apply IH; simpl; rewrite ?length_app; simpl; [|lia].
        symmetry. apply bool_decide_eq_false. lia.
      * apply IH; simpl; rewrite ?Hl, ?length_app; simpl; [|lia].
        symmetry. apply bool_decide_eq_true. lia.
    + apply bool_decide_eq_false in Hm.
      destruct (IH m) as [Hs Hlst]; [by rewrite Hl; symmetry; apply bool_decide_eq_false|done|].
      rewrite Hs, Hlst. rewrite !take_app_le by lia. split; [done|].
      rewrite !bool_decide_eq_false_2; [done|..]; rewrite length_app; simpl; lia.
Qed.

Lemma window_bound due timeline :
  Forall (λ te : Z * event, te.1 < due) (window due timeline).
Proof.
  induction timeline as [|te timeline IH]; simpl; [constructor|].
  case_bool_decide; by constructor.
Qed.

(** C7 (as the code has it): each listener has one bound, not two. The
    pointer listener keeps the first fifty movements whenever they come and
    deregisters at the fiftieth; it has no timer. The scroll, keystroke and
    touch listeners keep every event that arrives before their timer is due,
    1000 ms after they were set, however many there are, and are
    deregistered by that timer; they have no sample ceiling. *)
Theorem listeners_stop_by_count_or_by_timer origin t0 has_touch timeline :
  samples (mouse (listeners_after origin t0 has_touch timeline))
  = take 50 (omap (mouse_sample t0) timeline)
  ∧ listening (mouse (listeners_after origin t0 has_touch timeline))
    = bool_decide (length (omap (mouse_sample t0) timeline) < 50)%nat
  ∧ scroll_ (listeners_after origin t0 has_touch timeline)
    = {| listening := forallb (in_window (t0 + 1000)) timeline;
         samples := omap scroll_sample (window (t0 + 1000) timeline) |}
  ∧ keyboard (listeners_after origin t0 has_touch timeline)
    = {| listening := forallb (in_window (t0 + 1000)) timeline;
         samples := omap (key_sample origin) (window (t0 + 1000) timeline) |}
  ∧ touch (listeners_after origin t0 has_touch timeline)
    = (if has_touch
       then Some {| listening := forallb (in_window (t0 + 1000)) timeline;
                    samples := omap (touch_sample origin)
                                 (window (t0 + 1000) timeline) |}
       else None)
  ∧ Forall (λ te : Z * event, te.1 < t0 + 1000) (window (t0 + 1000) timeline).
Proof.
  unfold listeners_after.
  rewrite getBehaviorData_form, run_events_form. simpl.
  destruct (mouse_feed t0 timeline armed) as [Hs Hl]; [done|simpl; lia|].
  simpl in Hs, Hl.
  repeat split; try done. apply window_bound.
Qed.

(** *** The collector on concrete browsers *)

Example boot_working :
  ∃ body,
    boot working
    = Run [FetchPost "/api/track" body; Navigate "https://example.com"]
          (Ret tt).
Proof. eexists. reflexivity. Qed.

Example boot_no_document_body :
  boot no_document_body
  = Run [logged (JStr "TypeError: document.body is null");
         Navigate "https://example.com"] (Ret tt).
Proof. reflexivity. Qed.

(** C2, as the spec words it, fails: collection has resolved and the request
    has been issued, but while it stays unanswered the script has not
    navigated. *)
Lemma navigation_blocked_by_pending_delivery :
  (∃ data, collectAllData pending_delivery = Ret data)
  ∧ fetch_result pending_delivery = Hang
  ∧ result (boot pending_delivery) = Hang
  ∧ (∃ body, trace (boot pending_delivery) = [FetchPost "/api/track" body])
  ∧ Navigate (TARGET_URL pending_delivery) ∉ trace (boot pending_delivery).
Proof.
  split; [eexists; reflexivity|]. split; [reflexivity|].
  split; [reflexivity|]. split; [eexists; reflexivity|].
  intros Hin. rewrite boot_cases in Hin. simpl in Hin.
  by apply list_elem_of_singleton in Hin.
Qed.

Lemma navigation_waits_for_delivery_witness :
  (∃ data, collectAllData working = Ret data)
  ∧ (Navigate (TARGET_URL working) ∈ trace (boot working)
     ↔ fetch_result working ≠ Hang).
Proof.
  split; [eexists; reflexivity|].
  eapply (λ data H, proj2 (proj2 (navigation_waits_for_delivery working data H))).
  reflexivity.
Defined.


(** C9, as the spec words it, fails: when every probe throws, collection
    rejects, the script logs the error and navigates, and no payload (with
    or without [meta]) is produced or sent. *)
Lemma no_payload_when_every_probe_throws :
  collectAllData every_probe_throws
  = Throw (JStr "ReferenceError: Intl is not defined")
  ∧ boot every_probe_throws
    = Run [logged (JStr "ReferenceError: Intl is not defined");
           Navigate "https://example.com"] (Ret tt).
Proof. split; reflexivity. Qed.

Lemma payload_carries_collection_time_witness :
  perf_at_start working ≤ perf_at_resolved working
  ∧ ∃ data d,
      collectAllData working = Ret data
      ∧ 0 ≤ d ∧ d = 28
      ∧ get_prop "meta" (with_meta working data)
        = JObj [("collectionTime", JNum d)].
Proof.
  split; [simpl; lia|].
  eassert (Hdata : collectAllData working = Ret _) by reflexivity.
  destruct (proj1 (payload_carries_collection_time working) _ Hdata)
    as (d & Hpos & Hd & Hmeta & _); [simpl; lia|].
  eexists; exists d. split; [exact Hdata|]. split; [exact Hpos|].
  split; [exact Hd|exact Hmeta].
Defined.

(** C7, as the spec words it, fails on both bounds: a pointer movement five
    seconds after the listeners were set is still recorded and the listener
    is still registered; sixty scroll events inside the window are all
    recorded. *)
Lemma listeners_lack_one_bound :
  samples (mouse (listeners_after 0 1000 false [(6000, MouseMove 10 20)]))
  = [JObj [("x", JNum 10); ("y", JNum 20); ("t", JNum 5000)]]
  ∧ listening (mouse (listeners_after 0 1000 false [(6000, MouseMove 10 20)]))
    = true
  ∧ length (samples (scroll_ (listeners_after 0 1000 false sixty_scrolls)))
    = 60%nat
  ∧ listening (scroll_ (listeners_after 0 1000 false sixty_scrolls)) = true.
Proof. vm_compute. repeat split; reflexivity. Qed.

End TrackingProps.

(** * More properties of the server *)

Module ServerExtra.
Import Js Server Requests ServerProps.

Lemma all_chars_app p s1 s2 :
  all_chars p (s1 +:+ s2) = all_chars p s1 && all_chars p s2.
Proof.
  induction s1 as [|c s1 IH]; simpl; [done|].
  rewrite IH. by rewrite andb_assoc.
Qed.

Lemma length_string_app s1 s2 :
  String.length (s1 +:+ s2) = (String.length s1 + String.length s2)%nat.
Proof. induction s1 as [|c s1 IH]; simpl; [done|]. by rewrite IH. Qed.

Lemma hex_of_byte_ok (b : Byte.byte) :
  String.length (hex_of_byte b) = 2%nat
  ∧ all_chars lower_hex_char (hex_of_byte b) = true
  ∧ all_chars code_char (hex_of_byte b) = true.
Proof. destruct b; vm_compute; done. Qed.

Lemma toString_hex_ok buf :
  String.length (toString_hex buf) = (2 * length buf)%nat
  ∧ all_chars lower_hex_char (toString_hex buf) = true
  ∧ all_chars code_char (toString_hex buf) = true.
Proof.
  induction buf as [|b buf (IHl & IHh & IHc)]; [done|].
  change (toString_hex (b :: buf)) with (hex_of_byte b +:+ toString_hex buf).
  destruct (hex_of_byte_ok b) as (Hl & Hh & Hc).
  rewrite length_string_app, !all_chars_app, Hl, Hh, Hc, IHl, IHh, IHc.
  simpl length. repeat split; lia.
Qed.

(** X1: a generated code, the hex form of four random bytes, has eight
    characters, all of them lowercase hex digits, and passes the format
    check that custom codes must pass. *)
Theorem generateCode_is_valid_code random :
  length random = 4%nat →
  String.length (generateCode random) = 8%nat
  ∧ all_chars lower_hex_char (generateCode random) = true
  ∧ code_format_ok (generateCode random) = true.
Proof.
  intros Hlen. unfold generateCode, code_format_ok.
  destruct (toString_hex_ok random) as (Hl & Hh & Hc).
  rewrite Hl, Hh, Hc, Hlen. done.
Qed.

(** *** The statements, read back *)

Lemma insert_link_ok err code u s s' :
  insert_link err code u s = SqlOk s' →
  err = false ∧ select_by_code code (links s) = None
  ∧ s' = {| links := links s ++
                     [{| link_id := links_seq s + 1; short_code := code;
                         target_url := u |}];
            links_seq := links_seq s + 1;
            fingerprints := fingerprints s;
            fingerprints_seq := fingerprints_seq s |}.
Proof.
  unfold insert_link. destruct err; [done|].
  case_bool_decide as Hsome; [done|]. intros [= <-].
  split; [done|]. split; [|done].
  destruct (select_by_code code (links s)); [|done]. destruct Hsome; eauto.
Qed.

Lemma select_by_code_Some code t r :
  select_by_code code t = Some r → r ∈ t ∧ short_code r = code.
Proof.
  unfold select_by_code. intros Hfind. apply find_some in Hfind as [Hin Hc].
  apply bool_decide_eq_true in Hc. by apply list_elem_of_In in Hin.
Qed.

Lemma select_by_code_None code t :
  select_by_code code t = None ↔ code ∉ short_code <$> t.
Proof.
  unfold select_by_code. induction t as [|r t IH]; simpl.
  - split; [|done]. intros _ Hin. by apply elem_of_nil in Hin.
  - rewrite not_elem_of_cons. case_bool_decide as Hc.
    + split; [done|]. by intros [Hne _].
    + rewrite IH. split; [by intros ?; split|by intros [_ ?]].
Qed.

Lemma select_by_code_app_new code t r :
  select_by_code code t = None → short_code r = code →
  select_by_code code (t ++ [r]) = Some r.
Proof.
  unfold select_by_code. intros Hnone Hc.
  induction t as [|x t IH]; simpl in *.
  - by rewrite bool_decide_eq_true_2.
  - destruct (bool_decide (short_code x = code)); [done|]. by apply IH.
Qed.

Lemma select_by_code_app_old code t r x :
  select_by_code code t = Some x → select_by_code code (t ++ [r]) = Some x.
Proof.
  unfold select_by_code. induction t as [|y t IH]; simpl; [done|].
  destruct (bool_decide (short_code y = code)); [done|]. apply IH.
Qed.

Lemma select_by_target_Some u t r :
  select_by_target u t = Some r → r ∈ t ∧ target_url r = u.
Proof.
  unfold select_by_target. intros Hfind. apply find_some in Hfind as [Hin Hc].
  apply bool_decide_eq_true in Hc. by apply list_elem_of_In in Hin.
Qed.


(** With unique codes, a row is found by its own code. *)
Lemma select_by_code_of_row t r :
  NoDup (short_code <$> t) → r ∈ t →
  select_by_code (short_code r) t = Some r.
Proof.
  unfold select_by_code. induction t as [|x t IH]; simpl.
  - intros _ Hin. by apply elem_of_nil in Hin.
  - intros Hnd Hin. apply NoDup_cons in Hnd as [Hx Hnd].
    apply elem_of_cons in Hin as [->|Hin].
    + by rewrite bool_decide_eq_true_2.
    + case_bool_decide as Hc; [|by apply IH].
      destruct Hx. rewrite Hc. apply list_elem_of_fmap. eauto.
Qed.

(** Every way [POST /api/create] can end. *)
Lemma create_cases flt generated body s resp s' :
  post_api_create flt generated body s = (resp, s') →
  (s' = s ∧ (status_of resp = 400 ∨ status_of resp = 500))
  ∨ (s' = s ∧ ∃ u row,
       nonempty (url body) = Some u ∧ select_url_error flt = false
       ∧ select_by_target u (links s) = Some row
       ∧ resp = SendJson 200 (JObj [("code", JStr (short_code row));
                                    ("existing", JBool true)]))
  ∨ (∃ u code,
       nonempty (url body) = Some u
       ∧ resp = SendJson 200 (JObj [("code", JStr code)])
       ∧ insert_link (insert_link_error flt) code u s = SqlOk s'
       ∧ (select_url_error flt = true ∨ select_by_target u (links s) = None)
       ∧ (nonempty (customCode body) = Some code ∧ code_format_ok code = true
          ∨ nonempty (customCode body) = None ∧ code = generated)).
Proof.
  unfold post_api_create.
  destruct (nonempty (url body)) as [u|] eqn:Hu;
    [|intros [= <- <-]; left; by eauto].
  destruct (select_url_error flt) eqn:Hsel;
    [|destruct (select_by_target u (links s)) as [row|] eqn:Hrow].
  2: { intros [= <- <-]. right; left. split; [done|]. by exists u, row. }
  all: destruct (nonempty (customCode body)) as [cc|] eqn:Hcc; simpl.
  all: try (destruct (if select_code_error flt then _ else _);
            [intros [= <- <-]; left; by eauto|];
            destruct (code_format_ok cc) eqn:Hfmt; simpl;
            [|intros [= <- <-]; left; by eauto]).
  all: destruct (insert_link _ _ u s) as [s1|] eqn:Hins;
    intros [= <- <-]; [|left; by eauto].
  all: right; right; eexists u, _; repeat split; eauto.
Qed.

Lemma visit_cases flt timing req code s resp s' :
  get_code flt timing req code s = (resp, s') →
  (s' = s ∧ resp = Send 404 "Link not found"
   ∧ (select_link_error flt = true ∨ select_by_code code (links s) = None))
  ∨ (s' = s ∧ ∃ lnk, select_link_error flt = false
                     ∧ select_by_code code (links s) = Some lnk
                     ∧ insert_fingerprint_error flt = true
                     ∧ resp = Redirect (target_url lnk))
  ∨ (∃ lnk,
       select_link_error flt = false
       ∧ select_by_code code (links s) = Some lnk
       ∧ insert_fingerprint_error flt = false
       ∧ resp = SendPage {| page_TRACKING_ID := fingerprints_seq s + 1;
                            page_TARGET_URL := quote (target_url lnk);
                            page_noscript_url := target_url lnk |}
       ∧ s' = {| links := links s; links_seq := links_seq s;
                 fingerprints :=
                   <[fingerprints_seq s + 1 :=
                       {| fp_link_id := link_id lnk; hash := None;
                          ip := req_ip req;
                          user_agent := header "user-agent" req;
                          server_data := stringify (serverData timing req);
                          client_data := None; behavior_data := None;
                          nuclear_data := None |}]> (fingerprints s);
                 fingerprints_seq := fingerprints_seq s + 1 |}).
Proof.
  unfold get_code, insert_fingerprint.
  destruct (select_link_error flt) eqn:Hsel;
    [intros [= <- <-]; left; by eauto|].
  destruct (select_by_code code (links s)) as [lnk|] eqn:Hlnk;
    [|intros [= <- <-]; left; by eauto].
  destruct (insert_fingerprint_error flt) eqn:Hins; intros [= <- <-].
  - right; left. split; [done|]. by exists lnk.
  - right; right. by exists lnk.
Qed.

Section Digest.
Variable sha256_hex : string → string.

Local Abbreviation post_api_track := (post_api_track sha256_hex).
Local Abbreviation composite_hash := (composite_hash sha256_hex).
Local Abbreviation reachable := (reachable sha256_hex).
Local Abbreviation step := (step sha256_hex).
Local Abbreviation later := (later sha256_hex).
Local Abbreviation later_leaving := (later_leaving sha256_hex).
Local Abbreviation served_strings := (served_strings sha256_hex).
Local Abbreviation correlated := (correlated sha256_hex).

Lemma track_cases err body s resp s' :
  post_api_track err body s = (resp, s') →
  (s' = s ∧ resp = Send 500 EmptyString ∧ err = true)
  ∨ (s' = s ∧ resp = Send 200 "OK" ∧ err = false
     ∧ record_of (id body) s = None)
  ∨ (s' = s ∧ resp = Send 500 EmptyString ∧ err = false
     ∧ ∃ i r, id body = Some i ∧ fingerprints s !! i = Some r
              ∧ hash_taken i (composite_hash body) (fingerprints s) = true)
  ∨ (resp = Send 200 "OK" ∧ err = false
     ∧ ∃ i r, id body = Some i ∧ fingerprints s !! i = Some r
              ∧ hash_taken i (composite_hash body) (fingerprints s) = false
              ∧ s' = {| links := links s; links_seq := links_seq s;
                        fingerprints :=
                          <[i := correlated body r]> (fingerprints s);
                        fingerprints_seq := fingerprints_seq s |}).
Proof.
  unfold Server.post_api_track, update_fingerprint, record_of.
  destruct err; [intros [= <- <-]; by left|].
  destruct (id body) as [i|] eqn:Hid; simpl;
    [|intros [= <- <-]; right; left; by eauto].
  destruct (fingerprints s !! i) as [r|] eqn:Hr;
    [|intros [= <- <-]; right; left; by eauto].
  destruct (hash_taken i _ (fingerprints s)) eqn:Htaken; intros [= <- <-].
  - right; right; left. repeat split; try done. by exists i, r.
  - right; right; right. repeat split; try done. by exists i, r.
Qed.

Lemma hash_taken_false i h (t : gmap Z fingerprint) :
  hash_taken i h t = false ↔
  ∀ j r, t !! j = Some r → hash r = Some h → j = i.
Proof.
  unfold hash_taken. rewrite bool_decide_eq_false. split.
  - intros Hno j r Hr Hh. destruct (decide (j = i)) as [|Hne]; [done|].
    destruct Hno. by exists j, r.
  - intros Hall (j & r & Hr & Hne & Hh). by apply Hne, (Hall j r).
Qed.

Lemma hash_taken_true i h (t : gmap Z fingerprint) :
  hash_taken i h t = true ↔
  ∃ j r, j ≠ i ∧ t !! j = Some r ∧ hash r = Some h.
Proof.
  unfold hash_taken. rewrite bool_decide_eq_true. split.
  - intros (j & r & Hr & Hne & Hh). by exists j, r.
  - intros (j & r & Hne & Hr & Hh). by exists j, r.
Qed.

Lemma create_links_wf flt generated body s :
  links_wf s → links_wf (post_api_create flt generated body s).2.
Proof.
  intros (Hnd & Hids & Hseq).
  destruct (post_api_create flt generated body s) as [resp s'] eqn:Hrun.
  apply create_cases in Hrun
    as [[-> _]|[[-> _]|(u & code & _ & _ & Hins & _)]]; simpl; [done..|].
  apply insert_link_ok in Hins as (_ & Hfree & ->).
  unfold links_wf; simpl. rewrite !fmap_app, length_app. simpl.
  split; [|split].
  - apply NoDup_app. split; [done|]. split; [|apply NoDup_singleton].
    intros c Hc Hc'. apply list_elem_of_singleton in Hc' as ->.
    by apply select_by_code_None in Hfree.
  - rewrite Hids, Hseq, seq_app, fmap_app. simpl. do 2 f_equal. lia.
  - rewrite Hseq. lia.
Qed.

Lemma create_fingerprints_wf flt generated body s :
  fingerprints_wf s → fingerprints_wf (post_api_create flt generated body s).2.
Proof.
  intros (Hpos & Hkeys & Href & Huniq).
  destruct (post_api_create flt generated body s) as [resp s'] eqn:Hrun.
  apply create_cases in Hrun
    as [[-> _]|[[-> _]|(u & code & _ & _ & Hins & _)]]; simpl; [done..|].
  apply insert_link_ok in Hins as (_ & _ & ->).
  unfold fingerprints_wf; simpl.
  split; [done|]. split; [done|]. split; [|done].
  intros k r Hr. destruct (Href k r Hr) as (l & Hl & Hid).
  exists l. split; [|done]. apply elem_of_app. by left.
Qed.

Lemma visit_links_wf flt timing req code s :
  links_wf s → links_wf (get_code flt timing req code s).2.
Proof.
  intros Hwf.
  destruct (get_code flt timing req code s) as [resp s'] eqn:Hrun.
  apply visit_cases in Hrun
    as [(-> & _)|[(-> & _)|(lnk & _ & _ & _ & _ & ->)]]; done.
Qed.

Lemma visit_fingerprints_wf flt timing req code s :
  fingerprints_wf s → fingerprints_wf (get_code flt timing req code s).2.
Proof.
  intros (Hpos & Hkeys & Href & Huniq).
  destruct (get_code flt timing req code s) as [resp s'] eqn:Hrun.
  apply visit_cases in Hrun
    as [(-> & _)|[(-> & _)|(lnk & _ & Hlnk & _ & _ & ->)]]; simpl; [done..|].
  apply select_by_code_Some in Hlnk as [Hin _].
  unfold fingerprints_wf; simpl. split; [lia|]. split; [|split].
  - intros k. rewrite lookup_insert_is_Some, Hkeys. lia.
  - intros k r [[<- <-]|[Hne Hr]]%lookup_insert_Some; simpl; eauto.
  - intros i j ri rj h
      [[<- <-]|[Hi Hri]]%lookup_insert_Some
      [[<- <-]|[Hj Hrj]]%lookup_insert_Some; simpl; try done. eauto.
Qed.

Lemma track_links_wf err body s :
  links_wf s → links_wf (post_api_track err body s).2.
Proof.
  intros Hwf.
  destruct (post_api_track err body s) as [resp s'] eqn:Hrun.
  apply track_cases in Hrun
    as [(-> & _)|[(-> & _)|[(-> & _)|(_ & _ & i & r & _ & _ & _ & ->)]]];
    done.
Qed.

Lemma track_fingerprints_wf err body s :
  fingerprints_wf s → fingerprints_wf (post_api_track err body s).2.
Proof.
  intros (Hpos & Hkeys & Href & Huniq).
  destruct (post_api_track err body s) as [resp s'] eqn:Hrun.
  apply track_cases in Hrun
    as [(-> & _)|[(-> & _)|[(-> & _)|(_ & _ & i & r & _ & Hr & Hfree & ->)]]];
    simpl; [done..|].
  rewrite hash_taken_false in Hfree.
  unfold fingerprints_wf; simpl. split; [done|]. split; [|split].
  - intros k. rewrite lookup_insert_is_Some, <- Hkeys.
    split; [intros [<-|[_ ?]]; eauto|].
    intros Hk. destruct (decide (i = k)); eauto.
  - intros k r' [[<- <-]|[Hne Hr']]%lookup_insert_Some; simpl; eauto.
  - intros a b ra rb h
      [[<- <-]|[Ha Hra]]%lookup_insert_Some
      [[<- <-]|[Hb Hrb]]%lookup_insert_Some; simpl; try done.
    + intros [= <-] Hh. symmetry. eauto.
    + intros Hh [= <-]. eauto.
    + eauto.
Qed.

Lemma reachable_wf s : reachable s → links_wf s ∧ fingerprints_wf s.
Proof.
  induction 1 as [|s s' _ [IHl IHf] Hstep].
  - split.
    + unfold links_wf; simpl. split; [apply NoDup_nil_2|done].
    + unfold fingerprints_wf; simpl. split; [done|]. split; [|done].
      intros k. rewrite lookup_empty. split; [by intros []|lia].
  - destruct Hstep.
    + split; [by apply create_links_wf|by apply create_fingerprints_wf].
    + split; [by apply visit_links_wf|by apply visit_fingerprints_wf].
    + split; [by apply track_links_wf|by apply track_fingerprints_wf].
Qed.

Lemma select_by_code_prefix code (t t' : list link) r :
  t `prefix_of` t' → select_by_code code t = Some r →
  select_by_code code t' = Some r.
Proof.
  intros [k ->]. unfold select_by_code.
  induction t as [|x t IH]; simpl; [done|].
  destruct (bool_decide (short_code x = code)); [done|]. apply IH.
Qed.


Lemma step_links_prefix s s' : step s s' → links s `prefix_of` links s'.
Proof.
  intros [flt generated body s0|flt timing req code s0|err body s0].
  - destruct (post_api_create flt generated body s0) as [resp s1] eqn:Hrun.
    apply create_cases in Hrun
      as [[-> _]|[[-> _]|(u & code & _ & _ & Hins & _)]]; simpl; [done..|].
    apply insert_link_ok in Hins as (_ & _ & ->). simpl. by eexists.
  - by rewrite visit_links.
  - by rewrite track_links.
Qed.

Lemma later_links_prefix s s' : later s s' → links s `prefix_of` links s'.
Proof.
  induction 1 as [|s s1 s2 _ IH Hstep]; [done|].
  etrans; [exact IH|]. by apply step_links_prefix.
Qed.

Lemma later_reachable s s' : reachable s → later s s' → reachable s'.
Proof.
  intros Hreach. induction 1 as [|s s1 s2 _ IH Hstep]; [done|].
  eapply reachable_step; [by apply IH|done].
Qed.

(** A record that exists is left as it is by every request that is not a
    correlate call naming it. *)
Lemma later_leaving_keeps i s s' r :
  reachable s → later_leaving i s s' → fingerprints s !! i = Some r →
  reachable s' ∧ fingerprints s' !! i = Some r.
Proof.
  intros Hreach Hlater Hr.
  induction Hlater as [|s s1 flt generated body _ IH
                       |s s1 flt timing req code _ IH
                       |s s1 err body _ IH Hid]; [done|..];
    destruct (IH Hreach Hr) as [Hreach1 Hr1].
  - split; [eapply reachable_step; [done|apply step_create]|].
    by rewrite create_fingerprints.
  - split; [eapply reachable_step; [done|apply step_visit]|].
    destruct (reachable_wf s1 Hreach1) as [_ (_ & Hkeys & _)].
    destruct (get_code flt timing req code s1) as [resp s2] eqn:Hrun.
    apply visit_cases in Hrun
      as [(-> & _)|[(-> & _)|(lnk & _ & _ & _ & _ & ->)]]; simpl; [done..|].
    rewrite lookup_insert_ne; [done|].
    assert (is_Some (fingerprints s1 !! i)) as Hsome by eauto.
    apply Hkeys in Hsome. lia.
  - split; [eapply reachable_step; [done|apply step_track]|].
    destruct (post_api_track err body s1) as [resp s2] eqn:Hrun.
    apply track_cases in Hrun
      as [(-> & _)|[(-> & _)|[(-> & _)|(_ & _ & k & r0 & Hk & _ & _ & ->)]]];
      simpl; [done..|].
    rewrite lookup_insert_ne; [done|]. congruence.
Qed.

(** X2: as long as every create request carries its url and customCode as
    strings (or leaves them out), every short code the running server has
    stored matches the code format (3 to 20 letters, digits, hyphens or
    underscores), whether it was a custom code or a generated one. *)
Theorem served_codes_are_valid s :
  served_strings s →
  Forall (λ r, code_format_ok (short_code r) = true) (links s).
Proof.
  induction 1 as [|flt random parsed body s _ IH Hlen Hbody
                  |flt timing req code s _ IH|err body s _ IH].
  - constructor.
  - destruct (post_api_create flt (generateCode random) body s)
      as [resp s'] eqn:Hrun.
    apply create_cases in Hrun
      as [[-> _]|[[-> _]|(u & code & _ & _ & Hins & _ & Hcode)]];
      simpl; [done..|].
    apply insert_link_ok in Hins as (_ & _ & ->). simpl.
    apply Forall_app. split; [done|]. apply Forall_singleton. simpl.
    destruct Hcode as [[_ Hfmt]|[_ ->]]; [done|].
    unfold generateCode, code_format_ok.
    destruct (toString_hex_ok random) as (Hl & _ & Hc).
    by rewrite Hl, Hc, Hlen.
  - by rewrite visit_links.
  - by rewrite track_links.
Qed.

(** X3: in every state the store can reach, short codes are distinct, link
    ids are 1, 2, ... in insertion order with the counter at the number of
    rows, and every stored link is the row found by its own code; in every
    later state the links are still there in the same order, every code
    still finds the same link, and two links never share a code. *)
Theorem links_keys_are_unique s :
  reachable s →
  NoDup (short_code <$> links s)
  ∧ link_id <$> links s = Z.of_nat <$> seq 1 (length (links s))
  ∧ links_seq s = Z.of_nat (length (links s))
  ∧ (∀ r, r ∈ links s → select_by_code (short_code r) (links s) = Some r)
  ∧ ∀ s', later s s' →
      links s `prefix_of` links s'
      ∧ (∀ c l, select_by_code c (links s) = Some l →
           select_by_code c (links s') = Some l)
      ∧ (∀ r1 r2, r1 ∈ links s' → r2 ∈ links s' →
           short_code r1 = short_code r2 → r1 = r2).
Proof.
  intros Hreach. destruct (reachable_wf s Hreach) as [(Hnd & Hids & Hseq) _].
  split; [done|]. split; [done|]. split; [done|].
  split; [intros r Hr; by apply select_by_code_of_row|].
  intros s' Hlater.
  pose proof (later_links_prefix _ _ Hlater) as Hpre.
  split; [done|]. split; [intros c l; by apply select_by_code_prefix|].
  destruct (reachable_wf s' (later_reachable _ _ Hreach Hlater))
    as [(Hnd' & _) _].
  intros r1 r2 H1 H2 Hc.
  pose proof (select_by_code_of_row _ _ Hnd' H1) as E1.
  pose proof (select_by_code_of_row _ _ Hnd' H2) as E2.
  rewrite Hc in E1. congruence.
Qed.

(** X4: for a create request whose parsed body carries url and customCode
    as strings (or leaves them out): when it is answered 200, the code in
    the answer resolves; in the resulting state it finds a link whose target
    is the url of the body, and a visit to that code is served the page
    carrying that url. *)
Theorem create_then_resolve s flt generated parsed body resp s' :
  reachable s →
  create_body_of parsed = Some body →
  post_api_create flt generated body s = (resp, s') →
  status_of resp = 200 →
  ∃ u c data lnk,
    Tracking.get_prop "url" parsed = JStr u
    ∧ resp = SendJson 200 data
    ∧ Tracking.get_prop "code" data = JStr c
    ∧ select_by_code c (links s') = Some lnk ∧ target_url lnk = u
    ∧ ∀ timing req,
        (get_code no_visit_faults timing req c s').1
        = SendPage {| page_TRACKING_ID := fingerprints_seq s' + 1;
                      page_TARGET_URL := quote u;
                      page_noscript_url := u |}.
Proof.
  intros Hreach Hbody Hrun Hst.
  destruct (reachable_wf s Hreach) as [(Hnd & _ & _) _].
  assert (Hurl : ∀ u, url body = Some u →
                      Tracking.get_prop "url" parsed = JStr u).
  { intros u Hu. revert Hbody. unfold create_body_of, string_field.
    destruct parsed as [| | | | | |props]; try done.
    destruct (Tracking.get_prop "url" (JObj props)),
      (Tracking.get_prop "customCode" (JObj props)); simpl; try done;
      intros [= <-]; simpl in Hu; congruence. }
  assert (Hserve : ∀ c u lnk (s1 : db),
            select_by_code c (links s1) = Some lnk → target_url lnk = u →
            ∀ timing req,
              (get_code no_visit_faults timing req c s1).1
              = SendPage {| page_TRACKING_ID := fingerprints_seq s1 + 1;
                            page_TARGET_URL := quote u;
                            page_noscript_url := u |}).
  { intros c u lnk s1 Hlnk <- timing req. unfold get_code. simpl.
    by rewrite Hlnk. }
  apply create_cases in Hrun
    as [[_ [Hbad|Hbad]]|[(-> & u & row & Hu & _ & Hrow & ->)
                         |(u & code & Hu & -> & Hins & _ & _)]];
    [rewrite Hst in Hbad; done..| |].
  - apply nonempty_Some in Hu as [Hu _].
    apply select_by_target_Some in Hrow as [Hin Htarget].
    pose proof (select_by_code_of_row _ _ Hnd Hin) as Hfound.
    eexists u, (short_code row), _, row.
    split; [by apply Hurl|]. split; [done|]. split; [done|]. split; [done|].
    split; [done|]. by eapply Hserve.
  - apply nonempty_Some in Hu as [Hu _].
    apply insert_link_ok in Hins as (_ & Hfree & ->).
    eexists u, code, _, _. split; [by apply Hurl|]. split; [done|].
    split; [done|].
    assert (Hnew : select_by_code code
              (links s ++ [{| link_id := links_seq s + 1; short_code := code;
                              target_url := u |}])
            = Some {| link_id := links_seq s + 1; short_code := code;
                      target_url := u |})
      by by apply select_by_code_app_new.
    split; [exact Hnew|]. split; [done|]. by eapply Hserve.
Qed.



(** X7: for a url that is not stored yet and a working storage layer: a
    generated code that is already in use makes the request fail with 500
    (there is no second draw); a custom code already in use is refused with
    400, and a free but malformed one with 400; in all three nothing is
    stored. *)
Theorem create_rejects_codes u generated cc s :
  u ≠ EmptyString → select_by_target u (links s) = None →
  (nonempty cc = None → is_Some (select_by_code generated (links s)) →
   post_api_create no_create_faults generated
     {| url := Some u; customCode := cc |} s
   = (SendJson 500 (error_body "Internal server error"), s))
  ∧ (∀ c, nonempty cc = Some c → is_Some (select_by_code c (links s)) →
     post_api_create no_create_faults generated
       {| url := Some u; customCode := cc |} s
     = (SendJson 400 (error_body "Custom code already in use"), s))
  ∧ (∀ c, nonempty cc = Some c → select_by_code c (links s) = None →
     code_format_ok c = false →
     post_api_create no_create_faults generated
       {| url := Some u; customCode := cc |} s
     = (SendJson 400 (error_body "Invalid custom code format"), s)).
Proof.
  intros Hu Hnew. unfold post_api_create, insert_link. simpl.
  rewrite bool_decide_eq_false_2 by done. rewrite Hnew.
  split; [|split].
  - intros -> Hused. simpl. by rewrite bool_decide_eq_true_2.
  - intros c -> Hused. by rewrite bool_decide_eq_true_2.
  - intros c -> Hfree Hfmt. rewrite Hfree, Hfmt.
    rewrite bool_decide_eq_false_2; [done|]. by intros [].
Qed.

(** X8: when a visit is served the page, the tracking id in the page is the
    next counter value and was not the id of any record before; the record
    stored under it holds the link, the address, the user agent and the
    server snapshot and no client data; no other record and no link
    changes. *)
Theorem visit_creates_fresh_record s flt timing req code p s' :
  reachable s →
  get_code flt timing req code s = (SendPage p, s') →
  page_TRACKING_ID p = fingerprints_seq s + 1
  ∧ fingerprints s !! page_TRACKING_ID p = None
  ∧ (∀ k, k ≠ page_TRACKING_ID p → fingerprints s' !! k = fingerprints s !! k)
  ∧ links s' = links s
  ∧ ∃ lnk,
      select_by_code code (links s) = Some lnk
      ∧ page_noscript_url p = target_url lnk
      ∧ fingerprints s' !! page_TRACKING_ID p
        = Some {| fp_link_id := link_id lnk; hash := None;
                  ip := req_ip req; user_agent := header "user-agent" req;
                  server_data := stringify (serverData timing req);
                  client_data := None; behavior_data := None;
                  nuclear_data := None |}.
Proof.
  intros Hreach Hrun.
  destruct (reachable_wf s Hreach) as [_ (Hpos & Hkeys & _ & _)].
  apply visit_cases in Hrun
    as [(_ & Hbad & _)|[(_ & lnk & _ & _ & _ & Hbad)
                        |(lnk & _ & Hlnk & _ & [= ->] & ->)]];
    [done..|]. simpl.
  split; [done|]. split; [|split; [|split; [done|]]].
  - destruct (fingerprints s !! (fingerprints_seq s + 1)) as [r|] eqn:Hr;
      [|done].
    assert (is_Some (fingerprints s !! (fingerprints_seq s + 1))) as Hsome
      by eauto.
    apply Hkeys in Hsome. lia.
  - intros k Hk. by rewrite lookup_insert_ne.
  - exists lnk. split; [done|]. split; [done|]. by rewrite lookup_insert_eq.
Qed.

(** X10: in every state the store can reach, record ids lie between 1 and
    the counter and every record refers to a stored link, which its short
    code still resolves to. *)
Theorem records_refer_to_stored_links s k r :
  reachable s → fingerprints s !! k = Some r →
  1 ≤ k ≤ fingerprints_seq s
  ∧ ∃ l, l ∈ links s ∧ link_id l = fp_link_id r
         ∧ select_by_code (short_code l) (links s) = Some l.
Proof.
  intros Hreach Hr.
  destruct (reachable_wf s Hreach) as [(Hnd & _) (_ & Hkeys & Href & _)].
  split; [apply Hkeys; eauto|].
  destruct (Href k r Hr) as (l & Hl & Hid).
  exists l. split; [done|]. split; [done|]. by apply select_by_code_of_row.
Qed.

(** X13: once a payload has been correlated onto a record, and whatever
    requests follow that do not correlate that record again (further
    visits, creates, deliveries for other records), the record keeps its
    hash, and delivering the same clientData and behavior for any other
    existing record is answered 500 and stores nothing: the UNIQUE hash
    column refuses the second copy. *)
Theorem same_payload_on_second_record_rejected
    s0 body1 i r s1 s2 body2 j rj :
  reachable s0 →
  fingerprints s0 !! i = Some r → id body1 = Some i →
  post_api_track false body1 s0 = (Send 200 "OK", s1) →
  later_leaving i s1 s2 →
  fingerprints s2 !! j = Some rj → j ≠ i → id body2 = Some j →
  clientData body2 = clientData body1 → behavior body2 = behavior body1 →
  (∃ ri, fingerprints s2 !! i = Some ri
         ∧ hash ri = Some (composite_hash body1))
  ∧ ∀ err, post_api_track err body2 s2 = (Send 500 EmptyString, s2).
Proof.
  intros Hreach Hr Hid1 Hrun Hlater Hrj Hne Hid2 Hcd Hbh.
  assert (Hreach1 : reachable s1).
  { eapply reachable_step; [exact Hreach|].
    replace s1 with (post_api_track false body1 s0).2 by by rewrite Hrun.
    apply step_track. }
  apply track_cases in Hrun
    as [(_ & Hbad & _)|[(_ & _ & _ & Hnone)|[(_ & Hbad & _)
        |(_ & _ & i' & r' & Hid & Hr' & _ & ->)]]]; [done| |done|].
  { unfold record_of in Hnone. rewrite Hid1 in Hnone. simpl in Hnone.
    by rewrite Hr in Hnone. }
  rewrite Hid1 in Hid. injection Hid as <-.
  destruct (later_leaving_keeps i _ s2 (correlated body1 r') Hreach1 Hlater)
    as [_ Hri]; [by simpl; rewrite lookup_insert_eq|].
  split; [by exists (correlated body1 r')|].
  intros err. unfold Server.post_api_track, update_fingerprint.
  destruct err; [done|]. rewrite Hid2, Hrj.
  assert (Htaken : hash_taken j (composite_hash body2) (fingerprints s2)
                   = true).
  { apply hash_taken_true. exists i, (correlated body1 r').
    split; [done|]. split; [done|]. simpl.
    unfold Server.composite_hash. by rewrite Hcd, Hbh. }
  by rewrite Htaken.
Qed.

(** X14: a correlate call answers 200 or 500, changes nothing unless it
    answers 200, never adds or removes a record or changes a link or a
    counter, leaves every record other than the one named by id untouched,
    and in that record keeps the link, the address, the user agent and the
    server snapshot. *)
Theorem track_touches_one_record err body s resp s' :
  post_api_track err body s = (resp, s') →
  links s' = links s ∧ links_seq s' = links_seq s
  ∧ fingerprints_seq s' = fingerprints_seq s
  ∧ (status_of resp ≠ 200 → s' = s)
  ∧ (status_of resp = 200 ∨ status_of resp = 500)
  ∧ (∀ k, is_Some (fingerprints s' !! k) ↔ is_Some (fingerprints s !! k))
  ∧ (∀ k, Some k ≠ id body → fingerprints s' !! k = fingerprints s !! k)
  ∧ (∀ k r r', fingerprints s !! k = Some r → fingerprints s' !! k = Some r' →
       fp_link_id r' = fp_link_id r ∧ ip r' = ip r
       ∧ user_agent r' = user_agent r ∧ server_data r' = server_data r).
Proof.
  intros Hrun.
  apply track_cases in Hrun
    as [(-> & -> & _)|[(-> & -> & _)|[(-> & -> & _)
        |(-> & _ & i & r & Hid & Hr & _ & ->)]]]; simpl.
  1-3: split; [done|]; split; [done|]; split; [done|]; split; [done|];
       split; [eauto|]; split; [done|]; split; [done|];
       intros k r r' Hk Hk'; rewrite Hk in Hk'; by injection Hk' as <-.
  split; [done|]. split; [done|]. split; [done|]. split; [done|].
  split; [by left|]. split; [|split].
  - intros k. rewrite lookup_insert_is_Some.
    split; [intros [<-|[_ ?]]; eauto|].
    intros Hk. destruct (decide (i = k)); eauto.
  - intros k Hk. rewrite lookup_insert_ne; [done|]. congruence.
  - intros k r0 r' Hk [[<- <-]|[Hne Hk']]%lookup_insert_Some.
    + rewrite Hr in Hk. by injection Hk as <-.
    + rewrite Hk in Hk'. by injection Hk' as <-.
Qed.

(** X15: repeating a correlate call that was answered 200 is answered 200
    again and leaves the database exactly as the first call left it. *)
Theorem track_retry_changes_nothing body s s1 :
  post_api_track false body s = (Send 200 "OK", s1) →
  post_api_track false body s1 = (Send 200 "OK", s1).
Proof.
  intros Hrun.
  apply track_cases in Hrun
    as [(_ & Hbad & _)|[(-> & _ & _ & Hnone)|[(_ & Hbad & _)
        |(_ & _ & i & r & Hid & Hr & Hfree & ->)]]]; [done| |done|].
  { unfold Server.post_api_track.
    by rewrite (update_unknown _ _ _ _ _ _ _ Hnone). }
  unfold Server.post_api_track, update_fingerprint. simpl.
  rewrite Hid, lookup_insert_eq.
  assert (Hstill : hash_taken i (composite_hash body)
                     (<[i := correlated body r]> (fingerprints s)) = false).
  { rewrite hash_taken_false in Hfree. apply hash_taken_false.
    intros j rj Hj Hh. destruct (decide (j = i)) as [|Hne]; [done|].
    rewrite lookup_insert_ne in Hj by done. eauto. }
  rewrite Hstill. simpl. by rewrite insert_insert_eq.
Qed.

(** X9: a visit never changes the links table, answers 200, 302 or 404,
    changes the database only when it answers 200 (adding one record under
    the next id), and answers 404 exactly when the lookup failed or found no
    link. *)
Theorem visit_changes_only_when_page_served flt timing req code s resp s' :
  get_code flt timing req code s = (resp, s') →
  links s' = links s ∧ links_seq s' = links_seq s
  ∧ (status_of resp = 200 ∨ status_of resp = 302 ∨ status_of resp = 404)
  ∧ (status_of resp ≠ 200 → s' = s)
  ∧ (status_of resp = 404 ↔
     select_link_error flt = true ∨ select_by_code code (links s) = None)
  ∧ (status_of resp = 200 →
     fingerprints_seq s' = fingerprints_seq s + 1
     ∧ (∀ k, k ≠ fingerprints_seq s + 1 →
          fingerprints s' !! k = fingerprints s !! k)).
Proof.
  intros Hrun.
  apply visit_cases in Hrun
    as [(-> & -> & Hwhy)|[(-> & lnk & Hsel & Hlnk & Hins & ->)
                          |(lnk & Hsel & Hlnk & _ & -> & ->)]]; simpl.
  - split; [done|]. split; [done|]. split; [eauto|]. split; [done|].
    split; [done|]. done.
  - split; [done|]. split; [done|]. split; [eauto|]. split; [done|].
    split; [|done]. split; [done|].
    intros [Hbad|Hbad]; [by rewrite Hsel in Hbad|by rewrite Hlnk in Hbad].
  - split; [done|]. split; [done|]. split; [eauto|]. split; [done|].
    split.
    + split; [done|]. intros [Hbad|Hbad]; [by rewrite Hsel in Hbad|].
      by rewrite Hlnk in Hbad.
    + intros _. split; [done|]. intros k Hk. by rewrite lookup_insert_ne.
Qed.

(** X12: in every state the store can reach, every record carries the
    server snapshot, and carries client or behavior data only together with
    a content hash. *)
Theorem records_carry_server_data s k r :
  reachable s → fingerprints s !! k = Some r →
  is_Some (server_data r)
  ∧ (is_Some (client_data r) ∨ is_Some (behavior_data r) → is_Some (hash r)).
Proof.
  intros Hreach.
  enough (map_Forall (λ _, record_complete) (fingerprints s)) as Hinv
    by (intros Hr; exact (Hinv k r Hr)).
  clear k r. induction Hreach as [|s s' _ IH Hstep]; [apply map_Forall_empty|].
  destruct Hstep as [flt generated body s|flt timing req code s|err body s].
  - by rewrite create_fingerprints.
  - destruct (get_code flt timing req code s) as [resp s'] eqn:Hrun.
    apply visit_cases in Hrun
      as [(-> & _)|[(-> & _)|(lnk & _ & _ & _ & _ & ->)]]; simpl; [done..|].
    apply map_Forall_insert_2; [|done]. split; simpl; [by eauto|].
    by intros [[]|[]].
  - destruct (post_api_track err body s) as [resp s'] eqn:Hrun.
    apply track_cases in Hrun
      as [(-> & _)|[(-> & _)|[(-> & _)|(_ & _ & i & r & _ & Hr & _ & ->)]]];
      simpl; [done..|].
    apply map_Forall_insert_2; [|done].
    destruct (IH i r Hr) as [Hsd _]. split; simpl; eauto.
Qed.

End Digest.

Lemma generated_db_served : served_strings sample_digest generated_db.
Proof.
  apply (served_create sample_digest no_create_faults
           [Byte.x9f; Byte.x3a; Byte.x1c; Byte.x2e] second_create_json);
    [|done|done].
  apply served_track, served_visit.
  apply (served_create sample_digest no_create_faults
           [Byte.x00; Byte.x00; Byte.x00; Byte.x00] first_create_json);
    [apply served_init|done|done].
Qed.

Lemma generated_db_later : later sample_digest linked_db generated_db.
Proof.
  eapply later_step; [|apply step_create].
  eapply later_step; [|apply step_track].
  eapply later_step; [|apply step_visit].
  apply later_refl.
Qed.

Lemma revisited_db_leaves_first :
  later_leaving sample_digest 1 correlated_db revisited_db.
Proof. apply leaving_visit, leaving_refl. Qed.

Lemma generateCode_is_valid_code_witness :
  generateCode [Byte.x9f; Byte.x3a; Byte.x1c; Byte.x2e] = "9f3a1c2e"
  ∧ code_format_ok (generateCode [Byte.x9f; Byte.x3a; Byte.x1c; Byte.x2e]) = true.
Proof.
  split; [reflexivity|].
  apply (generateCode_is_valid_code [Byte.x9f; Byte.x3a; Byte.x1c; Byte.x2e]). reflexivity.
Defined.

Lemma served_codes_are_valid_witness :
  short_code <$> links generated_db = ["abc123"; "9f3a1c2e"]
  ∧ Forall (λ r, code_format_ok (short_code r) = true) (links generated_db).
Proof.
  split; [reflexivity|].
  exact (served_codes_are_valid sample_digest generated_db generated_db_served).
Defined.

Lemma links_keys_are_unique_witness :
  short_code <$> links generated_db = ["abc123"; "9f3a1c2e"]
  ∧ links linked_db `prefix_of` links generated_db
  ∧ (∀ c l, select_by_code c (links linked_db) = Some l →
       select_by_code c (links generated_db) = Some l)
  ∧ (∀ r1 r2, r1 ∈ links generated_db → r2 ∈ links generated_db →
       short_code r1 = short_code r2 → r1 = r2).
Proof.
  split; [reflexivity|].
  exact (proj2 (proj2 (proj2 (proj2
           (links_keys_are_unique sample_digest linked_db
              linked_db_reachable)))) generated_db generated_db_later).
Defined.

Lemma create_then_resolve_witness :
  create_body_of first_create_json
  = Some {| url := Some "https://example.com"; customCode := Some "abc123" |}
  ∧ ∃ lnk,
      select_by_code "abc123" (links linked_db) = Some lnk
      ∧ target_url lnk = "https://example.com".
Proof.
  split; [reflexivity|].
  destruct (create_then_resolve sample_digest empty_db no_create_faults
              "9f3a1c2e" first_create_json
              {| url := Some "https://example.com";
                 customCode := Some "abc123" |}
              (SendJson 200 (JObj [("code", JStr "abc123")])) linked_db
              (reachable_init sample_digest) eq_refl eq_refl eq_refl)
    as (u & c & data & lnk & Hu & Hresp & Hc & Hlnk & Htarget & _).
  injection Hu as <-. injection Hresp as <-. injection Hc as <-.
  exists lnk. split; [exact Hlnk|exact Htarget].
Defined.



Lemma create_rejects_codes_witness :
  post_api_create no_create_faults "9f3a1c2e"
    {| url := Some "https://example.net"; customCode := Some EmptyString |}
    generated_db
  = (SendJson 500 (error_body "Internal server error"), generated_db).
Proof.
  apply (proj1 (create_rejects_codes "https://example.net" "9f3a1c2e"
                  (Some EmptyString) generated_db ltac:(done) eq_refl));
    [reflexivity|]. vm_compute. eauto.
Defined.

Lemma visit_creates_fresh_record_witness :
  fingerprints linked_db !! 1 = None
  ∧ ∃ r, fingerprints visited_db !! 1 = Some r ∧ hash r = None.
Proof.
  destruct (visit_creates_fresh_record sample_digest linked_db no_visit_faults
              2 sample_request "abc123"
              {| page_TRACKING_ID := 1;
                 page_TARGET_URL := quote "https://example.com";
                 page_noscript_url := "https://example.com" |}
              visited_db linked_db_reachable eq_refl)
    as (_ & Hfresh & _ & _ & lnk & _ & _ & Hrow).
  split; [exact Hfresh|]. eexists. split; [exact Hrow|reflexivity].
Defined.

Lemma records_refer_to_stored_links_witness :
  ∃ r l, fingerprints correlated_db !! 1 = Some r
         ∧ l ∈ links correlated_db ∧ link_id l = fp_link_id r.
Proof.
  eassert (Hr : fingerprints correlated_db !! 1 = Some _) by reflexivity.
  destruct (records_refer_to_stored_links sample_digest correlated_db 1 _
              correlated_db_reachable Hr) as (_ & l & Hl & Hid & _).
  eexists _, l. split; [exact Hr|]. split; [exact Hl|exact Hid].
Defined.

Lemma same_payload_on_second_record_rejected_witness :
  post_api_track sample_digest false sample_track visited_db
  = (Send 200 "OK", correlated_db)
  ∧ fingerprints visited_db !! 2 = None
  ∧ is_Some (fingerprints revisited_db !! 2)
  ∧ post_api_track sample_digest false second_track revisited_db
    = (Send 500 EmptyString, revisited_db).
Proof.
  split; [reflexivity|]. split; [reflexivity|].
  eassert (H1 : fingerprints visited_db !! 1 = Some _) by reflexivity.
  eassert (H2 : fingerprints revisited_db !! 2 = Some _) by reflexivity.
  split; [rewrite H2; eauto|].
  exact (proj2 (same_payload_on_second_record_rejected sample_digest
                  visited_db sample_track 1 _ correlated_db revisited_db
                  second_track 2 _ visited_db_reachable H1 eq_refl eq_refl
                  revisited_db_leaves_first H2 ltac:(done) eq_refl eq_refl
                  eq_refl) false).
Defined.

Lemma track_touches_one_record_witness :
  links correlated_db = links visited_db
  ∧ ∃ r r', fingerprints visited_db !! 1 = Some r
            ∧ fingerprints correlated_db !! 1 = Some r'
            ∧ server_data r' = server_data r.
Proof.
  pose proof (track_touches_one_record sample_digest false sample_track
                visited_db (Send 200 "OK") correlated_db eq_refl)
    as (Hlinks & _ & _ & _ & _ & _ & _ & Hkeep).
  split; [exact Hlinks|].
  eassert (Hr : fingerprints visited_db !! 1 = Some _) by reflexivity.
  eassert (Hr' : fingerprints correlated_db !! 1 = Some _) by reflexivity.
  eexists _, _. split; [exact Hr|]. split; [exact Hr'|].
  exact (proj2 (proj2 (proj2 (Hkeep 1 _ _ Hr Hr')))).
Defined.

Lemma track_retry_changes_nothing_witness :
  post_api_track sample_digest false sample_track correlated_db
  = (Send 200 "OK", correlated_db).
Proof.
  apply (track_retry_changes_nothing sample_digest sample_track visited_db).
  reflexivity.
Defined.

Lemma visit_changes_only_when_page_served_witness :
  links visited_db = links linked_db
  ∧ fingerprints_seq visited_db = fingerprints_seq linked_db + 1.
Proof.
  pose proof (visit_changes_only_when_page_served no_visit_faults 2
                sample_request "abc123" linked_db _ visited_db eq_refl)
    as (Hlinks & _ & _ & _ & _ & Hpage).
  split; [exact Hlinks|]. exact (proj1 (Hpage eq_refl)).
Defined.

Lemma records_carry_server_data_witness :
  ∃ r, fingerprints visited_db !! 1 = Some r ∧ is_Some (server_data r).
Proof.
  eassert (Hr : fingerprints visited_db !! 1 = Some _) by reflexivity.
  eexists. split; [exact Hr|].
  exact (proj1 (records_carry_server_data sample_digest visited_db 1 _
                  visited_db_reachable Hr)).
Defined.

End ServerExtra.

(** * More properties of the collector *)

Module TrackingExtra.
Import Js Tracking TrackingProps.

Lemma bind_never_throws {A B} (o : outcome A) (k : A → outcome B) :
  never_throws o → (∀ x, never_throws (k x)) → never_throws (o ≫= k).
Proof. destruct o; simpl; eauto. Qed.

Lemma bind_Hang_later {A B} (o : outcome A) (k : A → outcome B) :
  never_throws o → (∀ x, k x = Hang) → o ≫= k = Hang.
Proof. destruct o; simpl; eauto. done. Qed.

Lemma or_null_never_throws' body : never_throws (or_null body).
Proof. by destruct body. Qed.

Lemma sensor_block_never_throws name present reading :
  never_throws (sensor_block name present reading).
Proof. unfold sensor_block. by destruct present, reading. Qed.

Lemma getSensorData_never_throws b : never_throws (getSensorData b).
Proof.
  unfold getSensorData.
  apply bind_never_throws; [apply sensor_block_never_throws|]. intros acc.
  apply bind_never_throws; [apply sensor_block_never_throws|]. by intros gyr.
Qed.

Lemma detectCPUArchitecture_never_throws b :
  never_throws (detectCPUArchitecture b).
Proof. unfold detectCPUArchitecture. by destruct (wasm_check b) as [[]| |]. Qed.

Lemma gated_never_throws (gate : bool) body :
  never_throws (if gate then or_null body else Ret JNull).
Proof. destruct gate; [apply or_null_never_throws'|done]. Qed.

Lemma getHardwareData_never_throws b : never_throws (getHardwareData b).
Proof.
  unfold getHardwareData.
  apply bind_never_throws; [apply or_null_never_throws'|]. intros gpu.
  apply bind_never_throws; [apply detectCPUArchitecture_never_throws|].
  intros arch.
  apply bind_never_throws; [apply gated_never_throws|]. intros battery.
  apply bind_never_throws; [apply gated_never_throws|]. intros storage.
  apply bind_never_throws; [apply gated_never_throws|]. intros media.
  apply bind_never_throws; [apply getSensorData_never_throws|]. by intros.
Qed.

Lemma getSensorData_silent b : silent_sensor b → getSensorData b = Hang.
Proof.
  unfold silent_sensor, getSensorData, sensor_block.
  intros [[-> ->]|[-> ->]]; [done|].
  destruct (has_Accelerometer b); [|done].
  by destruct (accelerometer_reading b).
Qed.

Lemma getHardwareData_silent b : silent_sensor b → getHardwareData b = Hang.
Proof.
  intros Hsilent. unfold getHardwareData.
  apply bind_Hang_later; [apply or_null_never_throws'|]. intros gpu.
  apply bind_Hang_later; [apply detectCPUArchitecture_never_throws|].
  intros arch.
  apply bind_Hang_later; [apply gated_never_throws|]. intros battery.
  apply bind_Hang_later; [apply gated_never_throws|]. intros storage.
  apply bind_Hang_later; [apply gated_never_throws|]. intros media.
  by rewrite getSensorData_silent.
Qed.

(** X16: the hardware group never rejects: it resolves or is still
    waiting, and so does the sensor probe, which resolves to null when the
    browser has neither sensor. *)
Theorem hardware_group_never_rejects b :
  ((∃ hardware, getHardwareData b = Ret hardware) ∨ getHardwareData b = Hang)
  ∧ ((∃ sensors, getSensorData b = Ret sensors) ∨ getSensorData b = Hang)
  ∧ (has_Accelerometer b = false → has_Gyroscope b = false →
     getSensorData b = Ret JNull).
Proof.
  split; [|split].
  - pose proof (getHardwareData_never_throws b) as H.
    destruct (getHardwareData b); [eauto|done|eauto].
  - pose proof (getSensorData_never_throws b) as H.
    destruct (getSensorData b); [eauto|done|eauto].
  - unfold getSensorData, sensor_block. by intros -> ->.
Qed.

(** X17: when the collector rejects, the error is the one thrown by the
    basic descriptors, the font list or the CSS features; no other probe can
    make it reject. *)
Theorem collect_rejects_only_through_unguarded_probes b e :
  collectAllData b = Throw e →
  basic_reads b = Throw e ∨ fonts_reads b = Throw e ∨ css_reads b = Throw e.
Proof.
  unfold collectAllData, getBasicData.
  destruct (basic_reads b) as [basic|e0|]; simpl; [|intros [= ->]; eauto|done].
  pose proof (getHardwareData_never_throws b) as Hhw.
  destruct (getHardwareData b) as [hardware| |]; simpl; [|done..].
  unfold getGraphicsData, getCanvasFingerprint, getWebGLFingerprint,
    getWebGL2Info, getVideoCapabilities, getFontList, getCSSFeatures.
  destruct (canvas_reads b), (webgl_reads b), (webgl2_reads b),
    (video_reads b); simpl; try done;
    destruct (fonts_reads b); simpl; try done;
    try (intros [= ->]; by eauto);
    destruct (css_reads b); simpl; try done; intros [= ->]; eauto.
Qed.

(** X18: when the basic descriptors are read and the browser has a motion
    sensor that never delivers a reading, collection never settles and the
    boot script does nothing at all: no request, no log, no navigation. *)
Theorem silent_sensor_blocks_navigation b basic :
  getBasicData b = Ret basic → silent_sensor b →
  collectAllData b = Hang ∧ boot b = Run [] Hang.
Proof.
  intros Hbasic Hsilent.
  assert (Hcollect : collectAllData b = Hang).
  { unfold collectAllData. rewrite Hbasic. simpl.
    by rewrite getHardwareData_silent. }
  split; [done|]. by rewrite boot_cases, Hcollect.
Qed.

Lemma window_app due tl more :
  window due (tl ++ more)
  = if forallb (in_window due) tl then tl ++ window due more
    else window due tl.
Proof.
  induction tl as [|te tl IH]; simpl; [done|].
  unfold in_window at 1. case_bool_decide; simpl; [|done].
  rewrite IH. by destruct (forallb (in_window due) tl).
Qed.

Lemma window_all due tl : forallb (in_window due) tl = true → window due tl = tl.
Proof.
  induction tl as [|te tl IH]; simpl; [done|].
  unfold in_window at 1. case_bool_decide; simpl; [|done].
  intros Hall. by rewrite IH.
Qed.

Lemma after_form origin t0 has_touch timeline :
  listeners_after origin t0 has_touch timeline
  = st_form origin t0 has_touch (forallb (in_window (t0 + 1000)) timeline)
      (foldl (mouse_step t0) armed timeline)
      (omap scroll_sample (window (t0 + 1000) timeline))
      (omap (key_sample origin) (window (t0 + 1000) timeline))
      (omap (touch_sample origin) (window (t0 + 1000) timeline)).
Proof.
  unfold listeners_after. by rewrite getBehaviorData_form, run_events_form.
Qed.

Lemma mouse_after origin t0 has_touch timeline :
  mouse (listeners_after origin t0 has_touch timeline)
  = {| listening :=
         bool_decide (length (omap (mouse_sample t0) timeline) < 50)%nat;
       samples := take 50 (omap (mouse_sample t0) timeline) |}.
Proof.
  rewrite after_form. simpl.
  destruct (mouse_feed t0 timeline armed) as [Hs Hl]; [done|simpl; lia|].
  simpl in Hs, Hl.
  destruct (foldl (mouse_step t0) armed timeline) as [l sm]. simpl in *.
  by rewrite Hs, Hl.
Qed.

(** X19: for all four behavioural listeners (pointer, scroll, keystrokes,
    touch), later events only append to what the listener has recorded, and
    a listener that has been deregistered stays as it is whatever comes
    later; once the timed listeners are deregistered no timer is left; the
    touch listener exists exactly when the browser has touch support. *)
Theorem listeners_only_append_and_stay_retired
    origin t0 has_touch timeline more :
  (samples (mouse (listeners_after origin t0 has_touch timeline))
     `prefix_of`
   samples (mouse (listeners_after origin t0 has_touch (timeline ++ more))))
  ∧ (samples (scroll_ (listeners_after origin t0 has_touch timeline))
       `prefix_of`
     samples (scroll_ (listeners_after origin t0 has_touch (timeline ++ more))))
  ∧ (samples (keyboard (listeners_after origin t0 has_touch timeline))
       `prefix_of`
     samples (keyboard (listeners_after origin t0 has_touch (timeline ++ more))))
  ∧ (listening (mouse (listeners_after origin t0 has_touch timeline)) = false →
     mouse (listeners_after origin t0 has_touch (timeline ++ more))
     = mouse (listeners_after origin t0 has_touch timeline))
  ∧ (listening (scroll_ (listeners_after origin t0 has_touch timeline)) = false →
     scroll_ (listeners_after origin t0 has_touch (timeline ++ more))
     = scroll_ (listeners_after origin t0 has_touch timeline)
     ∧ keyboard (listeners_after origin t0 has_touch (timeline ++ more))
       = keyboard (listeners_after origin t0 has_touch timeline)
     ∧ touch (listeners_after origin t0 has_touch (timeline ++ more))
       = touch (listeners_after origin t0 has_touch timeline)
     ∧ timers (listeners_after origin t0 has_touch (timeline ++ more)) = [])
  ∧ (∀ l, touch (listeners_after origin t0 has_touch timeline) = Some l →
       ∃ l', touch (listeners_after origin t0 has_touch (timeline ++ more))
             = Some l'
             ∧ samples l `prefix_of` samples l'
             ∧ (listening l = false → l' = l))
  ∧ (touch (listeners_after origin t0 has_touch timeline) = None ↔
     has_touch = false)
  ∧ (touch (listeners_after origin t0 has_touch (timeline ++ more)) = None ↔
     has_touch = false).
Proof.
  rewrite !mouse_after, !after_form. simpl.
  rewrite !window_app, !forallb_app, !omap_app.
  split; [|split; [|split; [|split; [|split; [|split; [|split]]]]]].
  - rewrite take_app. by eexists.
  - destruct (forallb _ timeline) eqn:Hopen; [|done].
    rewrite omap_app, window_all by done. by eexists.
  - destruct (forallb _ timeline) eqn:Hopen; [|done].
    rewrite omap_app, window_all by done. by eexists.
  - intros Hfull%bool_decide_eq_false.
    rewrite take_app_le by lia. f_equal.
    rewrite !bool_decide_eq_false_2; [done|done|]. rewrite length_app. lia.
  - intros ->. done.
  - destruct has_touch; [|done]. intros l [= <-]. simpl.
    eexists. split; [done|]. simpl.
    destruct (forallb _ timeline) eqn:Hopen.
    + rewrite omap_app, window_all by done. split; [by eexists|done].
    + done.
  - by destruct has_touch.
  - by destruct has_touch.
Qed.

Lemma collect_rejects_only_through_unguarded_probes_witness :
  collectAllData no_document_body
  = Throw (JStr "TypeError: document.body is null")
  ∧ (basic_reads no_document_body
     = Throw (JStr "TypeError: document.body is null")
     ∨ fonts_reads no_document_body
       = Throw (JStr "TypeError: document.body is null")
     ∨ css_reads no_document_body
       = Throw (JStr "TypeError: document.body is null")).
Proof.
  split; [reflexivity|].
  apply (collect_rejects_only_through_unguarded_probes no_document_body).
  reflexivity.
Defined.

Lemma silent_sensor_blocks_navigation_witness :
  silent_sensor silent_accelerometer
  ∧ boot silent_accelerometer = Run [] Hang.
Proof.
  assert (Hsilent : silent_sensor silent_accelerometer) by (left; done).
  split; [exact Hsilent|].
  eapply (λ basic H, proj2 (silent_sensor_blocks_navigation
                              silent_accelerometer basic H Hsilent)).
  reflexivity.
Defined.

End TrackingExtra.

(** * Properties of the shortening form *)

Module FormProps.
Import Js Server ServerProps ServerExtra Form.

Section Digest.
Variable sha256_hex : string → string.
Variable trim : string → string.
Local Abbreviation reachable := (reachable sha256_hex).
Local Abbreviation request_body := (request_body trim).

(** X20: when the url field is blank after trimming, the form shows the
    alert and sends nothing: no request is issued and the server state is
    untouched. *)
Theorem blank_url_never_reaches_server origin url_value custom_value :
  trim url_value = EmptyString →
  (∀ reply, submit trim origin url_value custom_value reply
            = [Alert "Please enter a URL"])
  ∧ ∀ flt generated s,
      submit_to trim origin url_value custom_value flt generated s
      = ([Alert "Please enter a URL"], s).
Proof.
  intros Hblank. unfold submit_to, submit. rewrite Hblank. simpl.
  split; done.
Qed.

(** X21: a submit with a non-blank url against the server sends one request
    and then either shows the link (and changed nothing if the link is
    flagged as existing) or alerts one of the three messages of the server
    with the database unchanged; the server's message for a missing url can
    never appear. *)
Theorem submit_shows_link_or_server_error
    origin url_value custom_value flt generated s :
  trim url_value ≠ EmptyString →
  let after := submit_to trim origin url_value custom_value flt generated s in
  (∃ c existing,
     after.1 = [Post "/api/create" (request_body url_value custom_value);
                ShowLink (origin +:+ "/" +:+ c) existing]
     ∧ (existing = true → after.2 = s))
  ∨ (∃ msg,
       after.1 = [Post "/api/create" (request_body url_value custom_value);
                  Alert msg]
       ∧ after.2 = s
       ∧ (msg = "Custom code already in use"
          ∨ msg = "Invalid custom code format"
          ∨ msg = "Internal server error")).
Proof.
  intros Hurl after. subst after. unfold submit_to, submit, request_body.
  rewrite !bool_decide_eq_false_2 by done. simpl.
  destruct (post_api_create flt generated _ s) as [resp s'] eqn:Hrun.
  pose proof Hrun as Hcases. apply create_cases in Hcases
    as [[-> Hst]|[(-> & u & row & _ & _ & _ & ->)
                  |(u & code & _ & -> & _)]]; simpl.
  - right. revert Hrun. unfold post_api_create, nonempty. simpl.
    rewrite bool_decide_eq_false_2 by done.
    destruct (if select_url_error flt then _ else _);
      [intros [= <-]; by destruct Hst|].
    case_bool_decide; simpl.
    + destruct (insert_link _ _ _ s); intros [= <-]; [by destruct Hst|].
      simpl. eexists. split; [done|]. split; [done|]. eauto.
    + destruct (if select_code_error flt then _ else _);
        [intros [= <-]; simpl; eexists; split; [done|]; split; [done|]; eauto|].
      destruct (negb _);
        [intros [= <-]; simpl; eexists; split; [done|]; split; [done|]; eauto|].
      destruct (insert_link _ _ _ s); intros [= <-]; [by destruct Hst|].
      simpl. eexists. split; [done|]. split; [done|]. eauto.
  - left. by exists (short_code row), true.
  - left. by exists code, false.
Qed.

(** X22: whenever the form shows a link after a submit against a reachable
    server state, the link is the origin followed by a code, and a visit to
    that code is served the page whose target is the trimmed url that was
    submitted. *)
Theorem submitted_link_resolves origin url_value custom_value flt generated s
    fullUrl existing :
  reachable s →
  trim url_value ≠ EmptyString →
  ShowLink fullUrl existing
    ∈ (submit_to trim origin url_value custom_value flt generated s).1 →
  ∃ c,
    fullUrl = origin +:+ "/" +:+ c
    ∧ ∀ timing req,
        (get_code no_visit_faults timing req c
           (submit_to trim origin url_value custom_value flt generated s).2).1
        = SendPage
            {| page_TRACKING_ID :=
                 fingerprints_seq
                   (submit_to trim origin url_value custom_value flt
                      generated s).2 + 1;
               page_TARGET_URL := quote (trim url_value);
               page_noscript_url := trim url_value |}.
Proof.
  intros Hreach Hurl. unfold submit_to, submit.
  rewrite !bool_decide_eq_false_2 by done. simpl.
  destruct (reachable_wf sha256_hex s Hreach) as [(Hnd & _ & _) _].
  destruct (post_api_create flt generated _ s) as [resp s'] eqn:Hrun.
  assert (Hserve : ∀ c lnk (s1 : db),
            select_by_code c (links s1) = Some lnk →
            target_url lnk = trim url_value →
            ∀ timing req,
              (get_code no_visit_faults timing req c s1).1
              = SendPage {| page_TRACKING_ID := fingerprints_seq s1 + 1;
                            page_TARGET_URL := quote (trim url_value);
                            page_noscript_url := trim url_value |}).
  { intros c lnk s1 Hlnk <- timing req. unfold get_code. simpl.
    by rewrite Hlnk. }
  pose proof Hrun as Hcases. apply create_cases in Hcases
    as [[-> Hst]|[(-> & u & row & Hu & _ & Hrow & ->)
                  |(u & code & Hu & -> & Hins & _)]]; simpl.
  - (* an error answer shows no link *)
    revert Hrun. unfold post_api_create, nonempty. simpl.
    rewrite bool_decide_eq_false_2 by done.
    destruct (if select_url_error flt then _ else _);
      [intros [= <-]; by destruct Hst|].
    assert (Hno : ∀ msg, ShowLink fullUrl existing
                    ∈ [Post "/api/create" (request_body url_value custom_value);
                       Alert msg] → False).
    { intros msg Hin. apply elem_of_cons in Hin as [|Hin]; [done|].
      by apply list_elem_of_singleton in Hin. }
    case_bool_decide; simpl.
    + destruct (insert_link _ _ _ s); intros [= <-]; [by destruct Hst|].
      simpl. intros Hin. by destruct (Hno _ Hin).
    + destruct (if select_code_error flt then _ else _);
        [intros [= <-]; simpl; intros Hin; by destruct (Hno _ Hin)|].
      destruct (negb _);
        [intros [= <-]; simpl; intros Hin; by destruct (Hno _ Hin)|].
      destruct (insert_link _ _ _ s); intros [= <-]; [by destruct Hst|].
      simpl. intros Hin. by destruct (Hno _ Hin).
  - intros Hin. apply elem_of_cons in Hin as [|Hin]; [done|].
    apply list_elem_of_singleton in Hin. injection Hin as -> ->.
    exists (short_code row). split; [done|].
    simpl in Hu. case_bool_decide; [done|]. injection Hu as <-.
    apply select_by_target_Some in Hrow as [Hin Htarget].
    eapply Hserve; [|done]. by apply select_by_code_of_row.
  - intros Hin. apply elem_of_cons in Hin as [|Hin]; [done|].
    apply list_elem_of_singleton in Hin. injection Hin as -> ->.
    exists code. split; [done|].
    simpl in Hu. case_bool_decide; [done|]. injection Hu as <-.
    apply insert_link_ok in Hins as (_ & Hfree & ->).
    eapply Hserve; [by apply select_by_code_app_new|done].
Qed.

End Digest.

Lemma blank_url_never_reaches_server_witness :
  trim_spaces "   " = EmptyString
  ∧ submit_to trim_spaces "https://sho.rt" "   " "abc123" no_create_faults
      "9f3a1c2e" linked_db
    = ([Alert "Please enter a URL"], linked_db).
Proof.
  split; [reflexivity|].
  apply (proj2 (blank_url_never_reaches_server trim_spaces "https://sho.rt"
                  "   " "abc123" eq_refl)).
Defined.

Lemma submit_shows_link_or_server_error_witness :
  (∃ c existing,
     (submit_to trim_spaces "https://sho.rt" " https://example.com " "!"
        no_create_faults "9f3a1c2e" linked_db).1
     = [Post "/api/create"
          (request_body trim_spaces " https://example.com " "!");
        ShowLink ("https://sho.rt" +:+ "/" +:+ c) existing]
     ∧ (existing = true →
        (submit_to trim_spaces "https://sho.rt" " https://example.com " "!"
           no_create_faults "9f3a1c2e" linked_db).2 = linked_db))
  ∨ (∃ msg,
       (submit_to trim_spaces "https://sho.rt" " https://example.com " "!"
          no_create_faults "9f3a1c2e" linked_db).1
       = [Post "/api/create"
            (request_body trim_spaces " https://example.com " "!");
          Alert msg]
       ∧ (submit_to trim_spaces "https://sho.rt" " https://example.com " "!"
            no_create_faults "9f3a1c2e" linked_db).2 = linked_db
       ∧ (msg = "Custom code already in use"
          ∨ msg = "Invalid custom code format"
          ∨ msg = "Internal server error")).
Proof.
  apply (submit_shows_link_or_server_error trim_spaces "https://sho.rt"
           " https://example.com " "!" no_create_faults "9f3a1c2e" linked_db).
  vm_compute. discriminate.
Defined.

Lemma submitted_link_resolves_witness :
  ∃ c,
    "https://sho.rt/abc123" = "https://sho.rt" +:+ "/" +:+ c
    ∧ (get_code no_visit_faults 2 sample_request c linked_db).1
      = SendPage {| page_TRACKING_ID := 1;
                    page_TARGET_URL := quote "https://example.com";
                    page_noscript_url := "https://example.com" |}.
Proof.
  destruct (submitted_link_resolves sample_digest trim_spaces "https://sho.rt"
              " https://example.com " "!" no_create_faults "9f3a1c2e"
              linked_db "https://sho.rt/abc123" true linked_db_reachable)
    as (c & Hc & Hpage).
  - vm_compute. discriminate.
  - vm_compute. apply list_elem_of_further, list_elem_of_here.
  - exists c. split; [exact Hc|]. exact (Hpage 2 sample_request).
Defined.

End FormProps.

(** * The boot script from start to end *)

Module BootTotal.
Import Js Tracking TrackingProps TrackingExtra.


Lemma resolves_bind_const {A B} (o : outcome A) (k : A → outcome B) r :
  never_throws o → (∀ x, resolves (k x) = r) →
  resolves (o ≫= k) = negb (hangs o) && r.
Proof. destruct o; simpl; intros Hnt Hk; [apply Hk|done|done]. Qed.
















End BootTotal.
